(** * Lane's Balance: the calculation core of River-Balance

    A shallow embedding of [docs/js/balance.js] (object [Balance]), of the
    seed utilities of [docs/js/planView.js] (object [PlanView]) and of the
    geometry that [docs/js/planView.js] and [docs/js/scaleView.js] compute
    for the two views, with the properties of the calculation core and of
    that geometry stated and proved over it.

    Numbers.  A JavaScript number is modelled as an extended real: a finite
    real, one of the two infinities, or NaN.  Arithmetic on finite values is
    exact real arithmetic: binary64 rounding, overflow and underflow are
    abstracted away, and the two zeros are identified (a division by zero
    yields the infinity a positive zero would give).  The special values
    propagate as ECMAScript prescribes.

    Rounding.  A binary64 result differs from the exact one in its last
    digits, and very large or very small finite values overflow or
    underflow.  The properties are therefore stated so that they hold of
    both: as comparisons and bounds, with a tolerance where two separately
    computed values are related, and on the slider domain [1,100] where
    overflow would change a result.  Where a statement of the specification
    is about the very value returned, the function concerned is also
    evaluated on binary64 numbers (module [Binary64]). *)

From Stdlib Require Import PrimFloat FloatOps.
From Stdlib Require Uint63.
From Stdlib Require Import Reals Lra Lia ZArith String List Bool.
From Stdlib Require Import Permutation Sorted.
Import ListNotations.

#[local] Set Warnings "-inexact-float".

Open Scope R_scope.

(** ** JavaScript numbers *)

Inductive number : Type :=
| Fin (r : R)
| PosInf
| NegInf
| NaN.

Definition Rltb (x y : R) : bool := if Rlt_dec x y then true else false.
Definition Rleb (x y : R) : bool := if Rle_dec x y then true else false.
Definition Reqb (x y : R) : bool := if Req_dec_T x y then true else false.

Module JS.

(** The infinity whose sign is the sign of [x] times the sign of [inf];
    [0 * Infinity] is NaN. *)
Definition scaled_inf (x : R) (inf : number) : number :=
  if Rltb 0 x then inf
  else if Rltb x 0 then
         match inf with PosInf => NegInf | NegInf => PosInf | other => other end
       else NaN.

Definition neg (a : number) : number :=
  match a with
  | Fin x => Fin (- x)
  | PosInf => NegInf
  | NegInf => PosInf
  | NaN => NaN
  end.

Definition add (a b : number) : number :=
  match a, b with
  | NaN, _ | _, NaN => NaN
  | Fin x, Fin y => Fin (x + y)
  | PosInf, NegInf | NegInf, PosInf => NaN
  | PosInf, _ | _, PosInf => PosInf
  | NegInf, _ | _, NegInf => NegInf
  end.

Definition sub (a b : number) : number := add a (neg b).

Definition mul (a b : number) : number :=
  match a, b with
  | NaN, _ | _, NaN => NaN
  | Fin x, Fin y => Fin (x * y)
  | Fin x, inf | inf, Fin x => scaled_inf x inf
  | PosInf, PosInf | NegInf, NegInf => PosInf
  | PosInf, NegInf | NegInf, PosInf => NegInf
  end.

Definition div (a b : number) : number :=
  match a, b with
  | NaN, _ | _, NaN => NaN
  | Fin x, Fin y =>
      if Reqb y 0 then scaled_inf x PosInf else Fin (x / y)
  | Fin _, _ => Fin 0
  | inf, Fin y => if Rltb y 0 then neg inf else inf
  | _, _ => NaN
  end.

(** [a < b], [a > b], [a <= b], [a >= b] and [a === b] on numbers: every
    comparison with NaN is false. *)
Definition lt (a b : number) : bool :=
  match a, b with
  | NaN, _ | _, NaN => false
  | Fin x, Fin y => Rltb x y
  | _, NegInf => false
  | NegInf, _ => true
  | PosInf, _ => false
  | _, PosInf => true
  end.

Definition gt (a b : number) : bool := lt b a.

Definition le (a b : number) : bool :=
  match a, b with
  | NaN, _ | _, NaN => false
  | Fin x, Fin y => Rleb x y
  | NegInf, _ => true
  | _, PosInf => true
  | _, NegInf => false
  | PosInf, _ => false
  end.

Definition ge (a b : number) : bool := le b a.

Definition strict_eq (a b : number) : bool :=
  match a, b with
  | Fin x, Fin y => Reqb x y
  | PosInf, PosInf | NegInf, NegInf => true
  | _, _ => false
  end.

End JS.

Declare Scope js_scope.
Delimit Scope js_scope with js.
Bind Scope js_scope with number.
Infix "+" := JS.add : js_scope.
Infix "-" := JS.sub : js_scope.
Infix "*" := JS.mul : js_scope.
Infix "/" := JS.div : js_scope.
Notation "- a" := (JS.neg a) : js_scope.
Infix "<" := JS.lt : js_scope.
Infix ">" := JS.gt : js_scope.
Infix "<=" := JS.le : js_scope.
Infix ">=" := JS.ge : js_scope.
Infix "===" := JS.strict_eq (at level 70, no associativity) : js_scope.

(** ** The functions of the [Math] object the source calls *)

Module Math.

(** [Math.min(a, b)] and [Math.max(a, b)]: NaN when an argument is NaN. *)
Definition min (a b : number) : number :=
  match a, b with
  | NaN, _ | _, NaN => NaN
  | _, _ => if (b < a)%js then b else a
  end.

Definition max (a b : number) : number :=
  match a, b with
  | NaN, _ | _, NaN => NaN
  | _, _ => if (a < b)%js then b else a
  end.

(** A real is an integer when it equals its floor. *)
Definition is_integer (x : R) : bool := Reqb (IZR (Zfloor x)) x.

(** [base] to the power [e] for finite non-zero [base] and finite non-zero
    [e]: [exp (e * ln base)] for a positive base, the integer power for a
    negative base and an integer exponent, NaN otherwise. *)
Definition real_pow (base e : R) : number :=
  if Rltb 0 base then Fin (Rpower base e)
  else if is_integer e then Fin (powerRZ base (Zfloor e))
       else NaN.

(** [Math.pow(base, exponent)], after Number::exponentiate. *)
Definition pow (base exponent : number) : number :=
  match exponent with
  | NaN => NaN
  | Fin e =>
      if Reqb e 0 then Fin 1
      else match base with
           | NaN => NaN
           | PosInf => if Rltb 0 e then PosInf else Fin 0
           | NegInf =>
               if Rltb 0 e
               then (if is_integer e && Z.odd (Zfloor e) then NegInf else PosInf)
               else Fin 0
           | Fin b =>
               if Reqb b 0 then (if Rltb 0 e then Fin 0 else PosInf)
               else real_pow b e
           end
  | PosInf =>
      match base with
      | NaN => NaN
      | PosInf | NegInf => PosInf
      | Fin b =>
          if Rltb 1 (Rabs b) then PosInf
          else if Reqb (Rabs b) 1 then NaN else Fin 0
      end
  | NegInf =>
      match base with
      | NaN => NaN
      | PosInf | NegInf => Fin 0
      | Fin b =>
          if Rltb 1 (Rabs b) then Fin 0
          else if Reqb (Rabs b) 1 then NaN else PosInf
      end
  end.

(** [Math.log(x)], the natural logarithm. *)
Definition log (x : number) : number :=
  match x with
  | NaN | NegInf => NaN
  | PosInf => PosInf
  | Fin r =>
      if Rltb r 0 then NaN
      else if Reqb r 0 then NegInf
           else Fin (ln r)
  end.

(** [Math.log10(x)], the base 10 logarithm. *)
Definition log10 (x : number) : number :=
  match x with
  | NaN | NegInf => NaN
  | PosInf => PosInf
  | Fin r =>
      if Rltb r 0 then NaN
      else if Reqb r 0 then NegInf
           else Fin (ln r / ln 10)
  end.

(** [Math.sin(x)]: NaN outside the finite numbers. *)
Definition sin (x : number) : number :=
  match x with
  | Fin r => Fin (Rtrigo_def.sin r)
  | _ => NaN
  end.

(** [Math.floor(x)]. *)
Definition floor (x : number) : number :=
  match x with
  | Fin r => Fin (IZR (Zfloor r))
  | other => other
  end.

(** [Math.round(x)]: the nearest integer, ties towards positive infinity. *)
Definition round (x : number) : number :=
  match x with
  | Fin r => Fin (IZR (Zfloor (r + 0.5)))
  | other => other
  end.

End Math.

(** ** [balance.js]: the object [Balance] *)

Open Scope string_scope.

(** An entry of the list [getActiveProcesses] returns:
    [{ name: ..., type: ... }]. *)
Record process : Type := { name : string; type : string }.

Module Balance.

Definition mapD50 (value : number) : number :=
  let ratio := ((value - Fin 1) / Fin 99)%js in
  let logValue := (Fin (-1) + Fin 3 * ratio)%js in
  Math.pow (Fin 10) logValue.

Definition mapSlope (value : number) : number :=
  (Fin 0.1 + (value / Fin 100) * Fin 5.906)%js.

Definition calculateRatio (Qs D50 Qw S : number) : number :=
  let sedimentTerm := (Qs * mapD50 D50)%js in
  let waterTerm := (Qw * mapSlope S)%js in
  if (waterTerm === Fin 0)%js then PosInf
  else (sedimentTerm / waterTerm)%js.

Definition getImbalanceIndex (ratio : number) : number :=
  let clampedRatio := Math.max (Fin 0.01) (Math.min (Fin 100) ratio) in
  Math.log10 clampedRatio.

Definition getState (ratio : number) : string :=
  let imbalance := getImbalanceIndex ratio in
  if (imbalance < Fin (-0.05))%js then "degradation"
  else if (imbalance > Fin 0.05)%js then "aggradation"
       else "equilibrium".

Definition calculateTiltAngle (ratio : number) : number :=
  let clampedRatio := Math.max (Fin 0.1) (Math.min (Fin 10) ratio) in
  let logRatio := Math.log clampedRatio in
  let maxAngle := Fin 30 in
  let scaleFactor := (maxAngle / Math.log (Fin 10))%js in
  (- logRatio * scaleFactor)%js.

Definition calculateStreamPower (Qw S : number) : number :=
  ((Qw * S) / (Fin 100 * Fin 100))%js.

Definition getChannelPattern (Qs D50 Qw S ratio : number) : string :=
  let sedimentLoad := (Qs / Fin 100)%js in
  let grainSize := (D50 / Fin 100)%js in
  let slope := (S / Fin 100)%js in
  let discharge := (Qw / Fin 100)%js in
  let streamPower := (discharge * slope)%js in
  let aggradationFactor :=
    if (ratio > Fin 1)%js
    then Math.min ((ratio - Fin 1) * Fin 0.3)%js (Fin 0.3)
    else Fin 0 in
  let braidingIndex :=
    ((sedimentLoad * Fin 0.35) + (grainSize * Fin 0.25) + aggradationFactor)%js in
  if (braidingIndex > Fin 0.5)%js then "braided"
  else if (discharge < Fin 0.15)%js then "straight"
       else "meandering".

(** The value of the local [braidingIndex] of [getChannelPattern]. *)
Definition braidingIndex (Qs D50 ratio : number) : number :=
  let sedimentLoad := (Qs / Fin 100)%js in
  let grainSize := (D50 / Fin 100)%js in
  let aggradationFactor :=
    if (ratio > Fin 1)%js
    then Math.min ((ratio - Fin 1) * Fin 0.3)%js (Fin 0.3)
    else Fin 0 in
  ((sedimentLoad * Fin 0.35) + (grainSize * Fin 0.25) + aggradationFactor)%js.

(** [processes.push(p)] appends [p] to the array. *)
Definition push (processes : list process) (p : process) : list process :=
  processes ++ [p].

Definition getActiveProcesses (ratio Qw S : number) : list process :=
  let state := getState ratio in
  let streamPower := calculateStreamPower Qw S in
  let processes : list process := [] in
  if String.eqb state "degradation" then
    let processes :=
      push processes {| name := "Bed incision"; type := "degradation" |} in
    let processes :=
      if (streamPower > Fin 0.3)%js
      then push processes {| name := "Bank erosion"; type := "degradation" |}
      else processes in
    let processes :=
      if (streamPower > Fin 0.5)%js
      then push processes
             {| name := "Knickpoint migration"; type := "degradation" |}
      else processes in
    let processes :=
      if (ratio < Fin 0.5)%js
      then push processes {| name := "Bed armoring"; type := "degradation" |}
      else processes in
    processes
  else if String.eqb state "aggradation" then
    let processes :=
      push processes {| name := "Bar formation"; type := "aggradation" |} in
    let processes :=
      if (ratio > Fin 1.5)%js
      then push processes
             {| name := "Channel widening"; type := "aggradation" |}
      else processes in
    let processes :=
      if (ratio > Fin 2)%js
      then push processes {| name := "Avulsion risk"; type := "aggradation" |}
      else processes in
    push processes {| name := "Overbank deposition"; type := "aggradation" |}
  else
    let processes :=
      push processes
        {| name := "Sediment transport balance"; type := "equilibrium" |} in
    push processes {| name := "Dynamic equilibrium"; type := "equilibrium" |}.

End Balance.

(** ** [planView.js]: the seed utilities of the object [PlanView] *)

Module PlanView.

(** The data fields of the object; the methods receive it as [this]. *)
Record state : Type := {
  currentPattern : string;
  lastQs : number;
  lastQw : number;
  lastD50 : number;
  lastS : number;
  currentSeed : number
}.

Definition pseudoRandom (this : state) (seed : number) : number :=
  let x := (Math.sin seed * Fin 10000)%js in
  (x - Math.floor x)%js.

Definition computeSeed (this : state) (Qs D50 Qw S ratio : number) : number :=
  let ratioKey :=
    Math.max (Fin 0)
      (Math.min (Fin 999)
         (Math.round
            (Math.log10 (Math.max (Fin 0.01) ratio) * Fin 100 + Fin 500)%js)) in
  (((Qs * Fin 1000 + D50) * Fin 1000 + Qw) * Fin 1000 + S
   + ratioKey / Fin 1000)%js.

End PlanView.

(** ** Calls and their completion

    A call either returns a value or throws.  [calculateRatio], [mapD50] and
    [mapSlope] contain no [throw] statement and apply only arithmetic and
    [Math] functions, none of which throws on a number: a call of one of them
    returns what the body computes. *)

Inductive completion (A : Type) : Type :=
| Return (v : A)
| Throw (message : string).

Arguments Return {A} v.
Arguments Throw {A} message.

Module Call.

Definition mapD50 (value : number) : completion number :=
  Return (Balance.mapD50 value).

Definition mapSlope (value : number) : completion number :=
  Return (Balance.mapSlope value).

Definition calculateRatio (Qs D50 Qw S : number) : completion number :=
  Return (Balance.calculateRatio Qs D50 Qw S).

End Call.

(** ** The real functions computed on finite arguments *)

(** The slider domain of the four parameters. *)
Definition in_domain (v : R) : Prop := 1 <= v <= 100.

Definition mapD50R (v : R) : R := Rpower 10 (-1 + 3 * ((v - 1) / 99)).

Definition mapSlopeR (v : R) : R := 0.1 + v / 100 * 5.906.

Definition log10R (x : R) : R := ln x / ln 10.

Definition clampR (lo hi x : R) : R := Rmax lo (Rmin hi x).

(** The braiding index of [getChannelPattern] on finite arguments. *)
Definition braidingIndexR (Qs D50 ratio : R) : R :=
  Qs / 100 * 0.35 + D50 / 100 * 0.25
  + (if Rltb 1 ratio then Rmin ((ratio - 1) * 0.3) 0.3 else 0).

(** The clamp of a number that is not NaN to the interval [lo, hi]. *)
Definition clampN (lo hi : R) (x : number) : R :=
  match x with
  | Fin r => clampR lo hi r
  | PosInf => hi
  | NegInf => lo
  | NaN => lo
  end.

(** The aggradation term of the braiding index for any ratio: the capped
    excess over 1, and 0 for a ratio that is not above 1 (NaN included). *)
Definition aggradationFactorN (ratio : number) : R :=
  match ratio with
  | Fin r => if Rltb 1 r then Rmin ((r - 1) * 0.3) 0.3 else 0
  | PosInf => 0.3
  | NegInf => 0
  | NaN => 0
  end.

(** The integer that the local [ratioKey] of [computeSeed] holds for a ratio
    other than NaN: [log10] of the ratio, floored at 0.01, scaled by 100,
    shifted by 500, rounded and clamped to [0, 999]. *)
Definition ratioKeyZ (ratio : number) : Z :=
  match ratio with
  | Fin r =>
      Z.max 0 (Z.min 999 (Zfloor (log10R (Rmax 0.01 r) * 100 + 500 + 0.5)))
  | PosInf => 999
  | NegInf => Z.max 0 (Z.min 999 (Zfloor (log10R 0.01 * 100 + 500 + 0.5)))
  | NaN => 0
  end.

(** The integer part of a seed: the four parameters as groups of three
    decimal digits. *)
Definition seedDigits (Qs D50 Qw S : Z) : Z :=
  (((Qs * 1000 + D50) * 1000 + Qw) * 1000 + S)%Z.

(** An integer slider position. *)
Definition slider (z : Z) : Prop := (1 <= z <= 100)%Z.

(** The value of [pseudoRandom] at a real seed: the fractional part of
    [sin(n) * 10000]. *)
Definition prR (n : R) : R :=
  Rtrigo_def.sin n * 10000 - IZR (Zfloor (Rtrigo_def.sin n * 10000)).

(** The real a finite number holds. *)
Definition to_R (n : number) : R :=
  match n with
  | Fin r => r
  | _ => 0
  end.

(** On the list [l] the comparator [cmp] subtracts finite keys, as
    [(a, b) => b.k - a.k] does: it sorts by decreasing key. *)
Definition by_key_desc {A : Type} (cmp : A -> A -> number) (key : A -> R)
  (l : list A) : Prop :=
  forall a b, In a l -> In b l -> cmp a b = Fin (key b - key a).

(** ** Further operators of the language *)

Module Lang.

(** [a % b]: the remainder of the division truncated towards zero; it has
    the sign of the dividend. *)
Definition Ztrunc (q : R) : Z := if Rleb 0 q then Zfloor q else Zceil q.

Definition rem (a b : number) : number :=
  match a, b with
  | NaN, _ | _, NaN => NaN
  | PosInf, _ | NegInf, _ => NaN
  | Fin x, Fin y =>
      if Reqb y 0 then NaN else Fin (x - y * IZR (Ztrunc (x / y)))
  | Fin x, _ => Fin x
  end.

(** [Math.abs(a)]. *)
Definition abs (a : number) : number :=
  match a with
  | Fin x => Fin (Rabs x)
  | PosInf | NegInf => PosInf
  | NaN => NaN
  end.

(** [a || d] on numbers: [d] when [a] is falsy, that is 0 or NaN. *)
Definition or_else (a d : number) : number :=
  match a with
  | NaN => d
  | Fin x => if Reqb x 0 then d else a
  | _ => a
  end.

(** The number of rounds of [for (let i = 0; i < n; i++)]: the naturals
    below [n].  The loop does not end for [n = Infinity]. *)
Definition for_count (n : number) : option nat :=
  match n with
  | Fin r => Some (Z.to_nat (Zceil r))
  | PosInf => None
  | NegInf | NaN => Some 0%nat
  end.

(** [Math.PI]. *)
Definition PI : number := Fin Rtrigo1.PI.

(** The index [i] of a loop as a number. *)
Definition index (i : nat) : number := Fin (INR i).

(** [array.sort(cmp)].  The sort is stable, and for a comparator that orders
    the elements consistently its result is the one arrangement in which no
    element is followed by one that [cmp] puts strictly before it; it is
    computed here by insertion. *)
Fixpoint insert {A : Type} (cmp : A -> A -> number) (a : A) (l : list A)
  : list A :=
  match l with
  | [] => [a]
  | e :: l' => if (cmp a e > Fin 0)%js then e :: insert cmp a l' else a :: l
  end.

Fixpoint sort {A : Type} (cmp : A -> A -> number) (l : list A) : list A :=
  match l with
  | [] => []
  | a :: l' => insert cmp a (sort cmp l')
  end.

End Lang.

(** ** [scaleView.js]: the object [ScaleView] *)

Module ScaleView.

(** The layout fields of the object. *)
Record view : Type := {
  width : number;
  height : number;
  beamLength : number
}.

(** An entry of the array [rocks] of [updateRocks]: [{ x, y, size }]. *)
Record rock : Type := { x : number; y : number; size : number }.

Definition pseudoRandom (this : view) (seed : number) : number :=
  let x := (Math.sin seed * Fin 10000)%js in
  (x - Math.floor x)%js.

Definition getPanPosition (this : view) (sliderValue : number) (isLeft : bool)
  : number :=
  let minOffset := (beamLength this * Fin 0.25)%js in
  let maxOffset := (beamLength this * Fin 0.50)%js in
  let t := ((sliderValue - Fin 1) / Fin 99)%js in
  let offset := (minOffset + t * (maxOffset - minOffset))%js in
  if isLeft then (- offset)%js else offset.

(** The angle [updateArrow] rotates the arrow pointer by. *)
Definition updateArrow_angle (ratio : number) : number :=
  let clampedRatio := Math.max (Fin 0.1) (Math.min (Fin 10) ratio) in
  let logRatio := Math.log clampedRatio in
  let maxAngle := Fin 50 in
  ((logRatio / Math.log (Fin 10)) * maxAngle)%js.

(** The rock that round [i] of the loop of [updateRocks] pushes. *)
Definition updateRocks_rock (this : view) (Qs D50 : number) (i : nat) : rock :=
  let baseSize := (Fin 3 + (D50 / Fin 100) * Fin 7)%js in
  let pileWidth := Fin 50 in
  let baseSeed := (Qs * Fin 1000 + D50 * Fin 10)%js in
  let layer := Math.floor (Lang.index i / Fin 3)%js in
  let layerWidth := (pileWidth - layer * Fin 12)%js in
  let seed := (baseSeed + Lang.index i * Fin 17)%js in
  let randX := pseudoRandom this seed in
  let randY := pseudoRandom this (seed + Fin 1)%js in
  let randSize := pseudoRandom this (seed + Fin 2)%js in
  let x := ((randX - Fin 0.5) * Math.max layerWidth (Fin 10))%js in
  let y := (Fin 18 - (layer * baseSize * Fin 0.9) - randY * Fin 3)%js in
  let sizeVariation := (Fin 0.7 + randSize * Fin 0.5)%js in
  let rockSize := Math.min (baseSize * sizeVariation)%js (Fin 12) in
  {| x := x; y := Math.max y (Fin 5); size := rockSize |}.

(** The array [rocks] of [updateRocks] once it is sorted, in the order in
    which the rocks are drawn; [None] when the loop does not end. *)
Definition updateRocks_rocks (this : view) (Qs D50 : number)
  : option (list rock) :=
  let numRocks := Math.floor (Fin 2 + (Qs / Fin 100) * Fin 10)%js in
  match Lang.for_count numRocks with
  | None => None
  | Some n =>
      let rocks := map (updateRocks_rock this Qs D50) (seq 0 n) in
      Some (Lang.sort (fun a b => (y b - y a)%js) rocks)
  end.

End ScaleView.
(** A rock of finite coordinates inside the pile. *)
Definition rock_in_pile (r : ScaleView.rock) : Prop :=
  exists x y s : R,
    r = ScaleView.Build_rock (Fin x) (Fin y) (Fin s) /\
    -25 <= x <= 25 /\ 5 <= y <= 18 /\ 0 < s <= 12.

(** ** [planView.js]: the drawing methods of the object [PlanView] *)

Module PlanViewDraw.

(** A point [{ x, y }]. *)
Record point : Type := { x : number; y : number }.

(** The object: its data fields, its layout fields, and whether the group
    [channelGroup] it draws into has been created. *)
Record view : Type := {
  data : PlanView.state;
  width : number;
  height : number;
  channelGroup : bool
}.

Definition set_data (this : view) (d : PlanView.state) : view :=
  {| data := d; width := width this; height := height this;
     channelGroup := channelGroup this |}.

(** What [generateMeanderingPath] returns: [{ points, width }]. *)
Module Meander.
Record t : Type := { points : list point; width : number }.
End Meander.

(** An entry of [barPositions]: [{ x, y, side }]. *)
Module Bar.
Record t : Type := { x : number; y : number; side : number }.
End Bar.







(** The drawing method [update] calls when it redraws, with its
    arguments. *)
Inductive drawing : Type :=
| DrawStraight (Qw : number)
| DrawBraided (Qw Qs D50 : number)
| DrawMeandering (Qw sinuosity Qs D50 : number).

(** [update]: the object after the call, and the drawing made, if any. *)
Definition update (this : view) (Qs D50 Qw S ratio : number)
  : view * option drawing :=
  if negb (channelGroup this) then (this, None)
  else
    let pattern := Balance.getChannelPattern Qs D50 Qw S ratio in
    let old := data this in
    let seed := PlanView.computeSeed old Qs D50 Qw S ratio in
    let paramChanged :=
      (Lang.abs (Qs - PlanView.lastQs old) > Fin 1)%js
      || (Lang.abs (Qw - PlanView.lastQw old) > Fin 1)%js
      || (Lang.abs (D50 - Lang.or_else (PlanView.lastD50 old) (Fin 50))
          > Fin 1)%js
      || (Lang.abs (S - Lang.or_else (PlanView.lastS old) (Fin 50))
          > Fin 1)%js in
    let patternChanged := negb (String.eqb pattern (PlanView.currentPattern old)) in
    if patternChanged || paramChanged then
      let drawn :=
        if String.eqb pattern "straight" then DrawStraight Qw
        else if String.eqb pattern "braided" then DrawBraided Qw Qs D50
        else
          let dischargeFactor := (Qw / Fin 100)%js in
          let sedimentSuppression := (Qs / Fin 100)%js in
          let sinuosity :=
            (Fin 1.1 + dischargeFactor * Fin 0.5
             - sedimentSuppression * Fin 0.2)%js in
          DrawMeandering Qw (Math.max (Fin 1.05) sinuosity) Qs D50 in
      (set_data this
         {| PlanView.currentPattern := pattern;
            PlanView.lastQs := Qs;
            PlanView.lastQw := Qw;
            PlanView.lastD50 := D50;
            PlanView.lastS := S;
            PlanView.currentSeed := seed |},
       Some drawn)
    else
      (set_data this
         {| PlanView.currentPattern := PlanView.currentPattern old;
            PlanView.lastQs := PlanView.lastQs old;
            PlanView.lastQw := PlanView.lastQw old;
            PlanView.lastD50 := PlanView.lastD50 old;
            PlanView.lastS := PlanView.lastS old;
            PlanView.currentSeed := seed |},
       None).

(** The path element a channel is drawn as, through the two methods the
    flow elements use. *)
Record pathNode : Type := {
  getTotalLength : number;
  getPointAtLength : number -> point
}.

(** An entry of [flowElements]. *)
Module Flow.
Record t : Type := {
  id : number;
  x : number;
  y : number;
  r : number;
  offset : number;
  pathLength : number;
  pathNode : option pathNode;
  speed : number
}.
End Flow.

(** [drawFlowElements]: the array it stores in [flowElements]; [None] when
    the loop does not end. *)
Definition drawFlowElements (node : pathNode) (channelWidth Qw : number)
  : option (list Flow.t) :=
  let numFlowElements := Math.floor (Fin 10 + Qw / Fin 5)%js in
  let flowElementRadius := (Fin 1.5 + (Qw / Fin 100) * Fin 1.5)%js in
  let pathLength := getTotalLength node in
  match Lang.for_count numFlowElements with
  | None => None
  | Some n =>
      Some (map (fun i =>
                   let offset :=
                     ((pathLength / numFlowElements) * Lang.index i)%js in
                   let p := getPointAtLength node offset in
                   {| Flow.id := Lang.index i;
                      Flow.x := x p;
                      Flow.y := y p;
                      Flow.r := flowElementRadius;
                      Flow.offset := offset;
                      Flow.pathLength := pathLength;
                      Flow.pathNode := Some node;
                      Flow.speed := (Fin 0.5 + (Qw / Fin 100) * Fin 0.5)%js |})
                (seq 0 n))
  end.

(** The callback of [updateFlowAnimation]: one step of a flow element along
    its path. *)
Definition flow_step (d : Flow.t) : Flow.t :=
  match Flow.pathNode d with
  | None => d
  | Some node =>
      let offset :=
        Lang.rem (Flow.offset d + Flow.speed d)%js (Flow.pathLength d) in
      let p := getPointAtLength node offset in
      {| Flow.id := Flow.id d;
         Flow.x := x p;
         Flow.y := y p;
         Flow.r := Flow.r d;
         Flow.offset := offset;
         Flow.pathLength := Flow.pathLength d;
         Flow.pathNode := Flow.pathNode d;
         Flow.speed := Flow.speed d |}
  end.

(** [updateFlowAnimation]: [flowElements.forEach] of that callback. *)
Definition updateFlowAnimation (flowElements : list Flow.t) : list Flow.t :=
  map flow_step flowElements.

(** An entry of [allChannelPaths] of [drawBraided], without the path
    element drawn from it: [{ points, width }]. *)
Module Channel.
Record t : Type := { points : list point; width : number }.
End Channel.

(** The thread that round [c] of the channel loop of [drawBraided] builds. *)
Definition drawBraided_channel (this : view) (Qw : number) (c : nat)
  : Channel.t :=
  let totalWidth := (Fin 60 + (Qw / Fin 100) * Fin 50)%js in
  let centerY := (height this / Fin 2)%js in
  let seedBase := (PlanView.currentSeed (data this) + Fin 2000)%js in
  let channelSeed := (seedBase + Lang.index c * Fin 97)%js in
  let channelWidth :=
    (Fin 3 + (Qw / Fin 100) * Fin 5
     + PlanView.pseudoRandom (data this) channelSeed * Fin 4)%js in
  let yStart :=
    ((PlanView.pseudoRandom (data this) (channelSeed + Fin 1) - Fin 0.5)
     * (totalWidth * Fin 0.7))%js in
  let points :=
    map (fun i =>
           let t := (Lang.index i / Fin 40)%js in
           let x := (t * width this)%js in
           let waveFreq :=
             (Fin 2 + PlanView.pseudoRandom (data this) (channelSeed + Fin 2)
                      * Fin 2)%js in
           let waveAmp :=
             (Fin 8 + PlanView.pseudoRandom (data this) (channelSeed + Fin 3)
                      * Fin 12)%js in
           let drift :=
             ((PlanView.pseudoRandom (data this)
                 (channelSeed + Fin 4 + Lang.index i) - Fin 0.5) * Fin 8)%js in
           let y :=
             (centerY + yStart
              + Math.sin (t * Lang.PI * waveFreq) * waveAmp
              + Math.sin (t * Lang.PI * waveFreq * Fin 2.3) * (waveAmp * Fin 0.4)
              + drift)%js in
           let y :=
             Math.max (centerY - totalWidth / Fin 2 + channelWidth)%js
               (Math.min (centerY + totalWidth / Fin 2 - channelWidth)%js y) in
           {| x := x; y := y |})
        (seq 0 41) in
  {| Channel.points := points; Channel.width := channelWidth |}.

(** The threads of [drawBraided], in order; [None] when the loop does not
    end. *)
Definition drawBraided_channels (this : view) (Qw : number)
  : option (list Channel.t) :=
  let numChannels := (Fin 3 + Math.floor (Qw / Fin 25))%js in
  match Lang.for_count numChannels with
  | None => None
  | Some n => Some (map (drawBraided_channel this Qw) (seq 0 n))
  end.

(** The number of mid-channel bars [addMidChannelBars] appends; [None] when
    its loop does not end. *)
Definition addMidChannelBars_count (Qs D50 : number) : option nat :=
  let sedimentFactor := ((Qs / Fin 100 + D50 / Fin 100) / Fin 2)%js in
  if (sedimentFactor < Fin 0.35)%js then Some 0%nat
  else
    let numBars := Math.floor ((sedimentFactor - Fin 0.35) * Fin 12)%js in
    if (numBars <= Fin 0)%js then Some 0%nat
    else Lang.for_count numBars.

End PlanViewDraw.




(** The view a page shows before any change: defaults of the object, on a
    canvas of 560 by 140. *)
Definition initial_view (channelGroup : bool) : PlanViewDraw.view :=
  {| PlanViewDraw.data :=
       {| PlanView.currentPattern := "meandering";
          PlanView.lastQs := Fin 50;
          PlanView.lastQw := Fin 50;
          PlanView.lastD50 := Fin 50;
          PlanView.lastS := Fin 50;
          PlanView.currentSeed := Fin 0 |};
     PlanViewDraw.width := Fin 560;
     PlanViewDraw.height := Fin 140;
     PlanViewDraw.channelGroup := channelGroup |}.

(** The remainder of [a] modulo [L > 0] for [a >= 0]. *)
Definition modR (a L : R) : R := a - L * IZR (Zfloor (a / L)).

(** A flow element that sits on the path [node] of length [L]: its offset
    is a finite length inside the path, its position is the point of the
    path at that offset, and its speed is finite and not negative. *)
Definition on_path (node : PlanViewDraw.pathNode) (L : R)
  (d : PlanViewDraw.Flow.t) : Prop :=
  exists o s : R,
    PlanViewDraw.Flow.offset d = Fin o /\ 0 <= o < L /\
    PlanViewDraw.Flow.pathLength d = Fin L /\
    PlanViewDraw.Flow.speed d = Fin s /\ 0 <= s /\
    PlanViewDraw.Flow.pathNode d = Some node /\
    PlanViewDraw.Flow.x d
    = PlanViewDraw.x (PlanViewDraw.getPointAtLength node (Fin o)) /\
    PlanViewDraw.Flow.y d
    = PlanViewDraw.y (PlanViewDraw.getPointAtLength node (Fin o)).

(** [d'] is [d] moved [n] steps along its path of length [L]. *)
Definition advanced (L : R) (n : nat) (d d' : PlanViewDraw.Flow.t) : Prop :=
  exists o s : R,
    PlanViewDraw.Flow.offset d = Fin o /\
    PlanViewDraw.Flow.speed d = Fin s /\
    PlanViewDraw.Flow.offset d' = Fin (modR (o + INR n * s) L) /\
    PlanViewDraw.Flow.id d' = PlanViewDraw.Flow.id d /\
    PlanViewDraw.Flow.r d' = PlanViewDraw.Flow.r d /\
    PlanViewDraw.Flow.speed d' = PlanViewDraw.Flow.speed d.

(** A thread of a braided channel on a canvas of height [H] for discharge
    [Qw]: finite, of 41 points, and with every point at least its own width
    inside the braidplain, whose half-width is [30 + Qw/4]. *)
Definition thread_in_braidplain (H Qw : R) (ch : PlanViewDraw.Channel.t)
  : Prop :=
  exists cw : R,
    PlanViewDraw.Channel.width ch = Fin cw /\
    3 + Qw / 20 <= cw < 7 + Qw / 20 /\
    length (PlanViewDraw.Channel.points ch) = 41%nat /\
    Forall (fun p =>
              exists x y : R,
                p = PlanViewDraw.Build_point (Fin x) (Fin y) /\
                H / 2 - (30 + Qw / 4) + cw <= y <= H / 2 + (30 + Qw / 4) - cw)
           (PlanViewDraw.Channel.points ch).

(** ** Binary64 evaluation

    The functions below work on binary64 numbers, with the arithmetic of
    IEEE 754 (round to nearest, ties to even), as the program does when it
    runs. *)

Module Binary64.

#[local] Open Scope float_scope.

(** The conversion of a 32-bit integer to a number. *)
Definition of_int (k : Z) : float :=
  match k with
  | Z0 => 0
  | Zpos _ => of_uint63 (Uint63.of_Z k)
  | Zneg _ => - of_uint63 (Uint63.of_Z (- k))
  end.

Module Math.

(** [Math.min(a, b)] and [Math.max(a, b)]: NaN when an argument is NaN, and
    the negative zero below the positive one. *)
Definition min (a b : float) : float :=
  if is_nan a || is_nan b then nan
  else if b <? a then b
  else if a <? b then a
  else if get_sign a then a else b.

Definition max (a b : float) : float :=
  if is_nan a || is_nan b then nan
  else if a <? b then b
  else if b <? a then a
  else if get_sign a then b else a.

(** [Math.log(x)] as V8 computes it (ieee754::log, the logarithm of fdlibm):
    [x = 2^k * (1 + f)] with [sqrt(2)/2 < 1 + f < sqrt(2)], and
    [log(1 + f)] by a polynomial in [s = f / (2 + f)].  [hx] holds the
    twenty leading bits of the fraction of [x], on which the source
    branches. *)
Definition ln2_hi := 6.93147180369123816490e-01.
Definition ln2_lo := 1.90821492927058770002e-10.
Definition Lg1 := 6.666666666666735130e-01.
Definition Lg2 := 3.999999999940941908e-01.
Definition Lg3 := 2.857142874366239149e-01.
Definition Lg4 := 2.222219843214978396e-01.
Definition Lg5 := 1.818357216161805012e-01.
Definition Lg6 := 1.531383769920937332e-01.
Definition Lg7 := 1.479819860511658591e-01.

Definition log (x : float) : float :=
  if is_nan x then x
  else if x =? 0 then neg_infinity
  else if x <? 0 then nan
  else if x =? infinity then x
  else
    let (m, e) := Z.frexp x in
    let hx := (Uint63.to_Z (normfr_mantissa m) / 2 ^ 32 mod 2 ^ 20)%Z in
    let i := (0x6a09c <=? hx)%Z in
    let x := if i then m else 2 * m in
    let k := if i then e else (e - 1)%Z in
    let f := x - 1 in
    let dk := of_int k in
    if ((2 + hx) mod 2 ^ 20 <? 3)%Z then
      if f =? 0 then
        if (k =? 0)%Z then 0 else dk * ln2_hi + dk * ln2_lo
      else
        let R := f * f * (0.5 - 0.33333333333333333 * f) in
        if (k =? 0)%Z then f - R else dk * ln2_hi - ((R - dk * ln2_lo) - f)
    else
      let s := f / (2 + f) in
      let z := s * s in
      let w := z * z in
      let t1 := w * (Lg2 + w * (Lg4 + w * Lg6)) in
      let t2 := z * (Lg1 + w * (Lg3 + w * (Lg5 + w * Lg7))) in
      let R := t2 + t1 in
      if ((0x6147a <=? hx) && (hx <=? 0x6b851))%Z then
        let hfsq := 0.5 * f * f in
        if (k =? 0)%Z then f - (hfsq - s * (hfsq + R))
        else dk * ln2_hi - ((hfsq - (s * (hfsq + R) + dk * ln2_lo)) - f)
      else
        if (k =? 0)%Z then f - s * (f - R)
        else dk * ln2_hi - ((s * (f - R) - dk * ln2_lo) - f).

(** [Math.floor(x)].  A binary64 number of magnitude [2^52] or more is an
    integer; below, adding and subtracting [2^52] rounds to the nearest
    integer, corrected downwards when it lies above [x]. *)
Definition two52 := 4503599627370496.

Definition floor (x : float) : float :=
  if is_nan x || (two52 <=? abs x) then x
  else
    let nearest := if x <? 0 then (x - two52) + two52 else (x + two52) - two52 in
    let below := if x <? nearest then nearest - 1 else nearest in
    if below =? 0 then (if get_sign x then -0 else 0) else below.

End Math.

Module Balance.

Definition mapSlope (value : float) : float :=
  0.1 + (value / 100) * 5.906.

Definition calculateTiltAngle (ratio : float) : float :=
  let clampedRatio := Math.max 0.1 (Math.min 10 ratio) in
  let logRatio := Math.log clampedRatio in
  let maxAngle := 30 in
  let scaleFactor := maxAngle / Math.log 10 in
  - logRatio * scaleFactor.

End Balance.

Module ScaleView.

(** The angle [updateArrow] rotates the arrow pointer by. *)
Definition updateArrow_angle (ratio : float) : float :=
  let clampedRatio := Math.max 0.1 (Math.min 10 ratio) in
  let logRatio := Math.log clampedRatio in
  let maxAngle := 50 in
  (logRatio / Math.log 10) * maxAngle.

End ScaleView.

Module PlanView.

(** [pseudoRandom] from the value [sine] that [Math.sin(seed)] returned. *)
Definition pseudoRandom_of_sine (sine : float) : float :=
  let x := sine * 10000 in
  x - Math.floor x.

End PlanView.

End Binary64.

(** ** Comparisons on reals as booleans *)

Lemma Rltb_true (x y : R) : x < y -> Rltb x y = true.
Proof. intros H. unfold Rltb. destruct (Rlt_dec x y); [reflexivity | contradiction]. Qed.

Lemma Rltb_false (x y : R) : y <= x -> Rltb x y = false.
Proof. intros H. unfold Rltb. destruct (Rlt_dec x y); [lra | reflexivity]. Qed.

Lemma Rleb_true (x y : R) : x <= y -> Rleb x y = true.
Proof. intros H. unfold Rleb. destruct (Rle_dec x y); [reflexivity | contradiction]. Qed.

Lemma Reqb_true (x y : R) : x = y -> Reqb x y = true.
Proof. intros H. unfold Reqb. destruct (Req_dec_T x y); [reflexivity | contradiction]. Qed.

Lemma Reqb_false (x y : R) : x <> y -> Reqb x y = false.
Proof. intros H. unfold Reqb. destruct (Req_dec_T x y); [contradiction | reflexivity]. Qed.

Lemma Rltb_spec (x y : R) : Rltb x y = true <-> x < y.
Proof.
  unfold Rltb. destruct (Rlt_dec x y); split; intros; try assumption;
    try reflexivity; try discriminate; contradiction.
Qed.

Lemma Rleb_spec (x y : R) : Rleb x y = true <-> x <= y.
Proof.
  unfold Rleb. destruct (Rle_dec x y); split; intros; try assumption;
    try reflexivity; try discriminate; contradiction.
Qed.

(** ** Powers of ten and logarithms *)

Lemma ln10_pos : 0 < ln 10.
Proof. rewrite <- ln_1. apply ln_increasing; lra. Qed.

Lemma Rpower10_pos (e : R) : 0 < Rpower 10 e.
Proof. unfold Rpower. apply exp_pos. Qed.

Lemma pow_lt_inv (a b : R) (n : nat) : 0 < b -> a ^ n < b ^ n -> a < b.
Proof.
  intros Hb Hlt. destruct (Rlt_le_dec a b) as [Hab | Hba]; [assumption | ].
  exfalso. apply (Rlt_irrefl (a ^ n)).
  apply Rlt_le_trans with (b ^ n); [assumption | ].
  apply pow_incr. lra.
Qed.

Lemma Rpower10_nat_mult (e : R) (n : nat) :
  Rpower 10 (INR n * e) = Rpower 10 e ^ n.
Proof.
  rewrite Rmult_comm, <- Rpower_mult.
  apply Rpower_pow, Rpower10_pos.
Qed.

Lemma Rpower10_diff (m1 m2 : nat) :
  Rpower 10 (INR m1 - INR m2) = 10 ^ m1 / 10 ^ m2.
Proof.
  unfold Rminus. rewrite Rpower_plus, Rpower_Ropp, !Rpower_pow by lra.
  reflexivity.
Qed.

Lemma pow10_pos (m : nat) : 0 < 10 ^ m.
Proof. apply pow_lt. lra. Qed.

(** [a < 10^e] follows from [a^n * 10^m2 < 10^m1] when [n * e = m1 - m2]. *)
Lemma Rpower10_gt (a e : R) (n m1 m2 : nat) :
  INR n * e = INR m1 - INR m2 ->
  a ^ n * 10 ^ m2 < 10 ^ m1 ->
  a < Rpower 10 e.
Proof.
  intros He Hlt. apply pow_lt_inv with n; [apply Rpower10_pos | ].
  rewrite <- Rpower10_nat_mult, He, Rpower10_diff.
  apply Rmult_lt_reg_r with (10 ^ m2); [apply pow10_pos | ].
  unfold Rdiv. rewrite Rmult_assoc, Rinv_l, Rmult_1_r; [assumption | ].
  apply Rgt_not_eq, pow10_pos.
Qed.

(** [10^e < a] follows from [10^m1 < a^n * 10^m2] when [n * e = m1 - m2]. *)
Lemma Rpower10_lt (a e : R) (n m1 m2 : nat) :
  0 < a ->
  INR n * e = INR m1 - INR m2 ->
  10 ^ m1 < a ^ n * 10 ^ m2 ->
  Rpower 10 e < a.
Proof.
  intros Ha He Hlt. apply pow_lt_inv with n; [assumption | ].
  rewrite <- Rpower10_nat_mult, He, Rpower10_diff.
  apply Rmult_lt_reg_r with (10 ^ m2); [apply pow10_pos | ].
  unfold Rdiv. rewrite Rmult_assoc, Rinv_l, Rmult_1_r; [assumption | ].
  apply Rgt_not_eq, pow10_pos.
Qed.

Lemma log10R_Rpower (c : R) : log10R (Rpower 10 c) = c.
Proof.
  unfold log10R. rewrite ln_Rpower. field.
  apply Rgt_not_eq, ln10_pos.
Qed.

Lemma log10R_incr (x y : R) : 0 < x -> x <= y -> log10R x <= log10R y.
Proof.
  intros Hx [Hlt | Heq].
  - unfold log10R. apply Rmult_le_compat_r.
    + left. apply Rinv_0_lt_compat, ln10_pos.
    + left. apply ln_increasing; assumption.
  - subst. right. reflexivity.
Qed.

Lemma log10R_lt (x y : R) : 0 < x -> x < y -> log10R x < log10R y.
Proof.
  intros Hx Hlt. unfold log10R. apply Rmult_lt_compat_r.
  - apply Rinv_0_lt_compat, ln10_pos.
  - apply ln_increasing; assumption.
Qed.

Lemma log10R_inv (x : R) : 0 < x -> log10R (/ x) = - log10R x.
Proof.
  intros Hx. unfold log10R. rewrite ln_Rinv by assumption. field.
  apply Rgt_not_eq, ln10_pos.
Qed.

Lemma log10R_1 : log10R 1 = 0.
Proof. unfold log10R. rewrite ln_1. field. apply Rgt_not_eq, ln10_pos. Qed.

Lemma log10R_100 : log10R 100 = 2.
Proof.
  unfold log10R. replace 100 with (10 * 10) by lra.
  rewrite ln_mult by lra. field. apply Rgt_not_eq, ln10_pos.
Qed.

Lemma log10R_001 : log10R 0.01 = -2.
Proof.
  replace 0.01 with (/ 100) by lra.
  rewrite log10R_inv by lra. rewrite log10R_100. reflexivity.
Qed.

(** The dead zone of [getState] contains the ratios between 0.9 and 1.1. *)
Lemma log10R_dead_zone (x : R) :
  0.9 <= x <= 1.1 -> -0.05 <= log10R x <= 0.05.
Proof.
  intros [Hlo Hhi]. split.
  - rewrite <- (log10R_Rpower (-0.05)). apply log10R_incr.
    + apply Rpower10_pos.
    + apply Rle_trans with 0.9; [ | assumption]. left.
      apply (Rpower10_lt 0.9 (-0.05) 20 0 1); [lra | simpl; lra | lra].
  - rewrite <- (log10R_Rpower 0.05). apply log10R_incr; [lra | ].
    apply Rle_trans with 1.1; [assumption | ]. left.
    apply (Rpower10_gt 1.1 0.05 20 1 0); [simpl; lra | lra].
Qed.

(** ** The functions on finite arguments *)

Lemma min_fin (a b : R) : Math.min (Fin a) (Fin b) = Fin (Rmin a b).
Proof.
  unfold Math.min, JS.lt, Rltb, Rmin.
  destruct (Rlt_dec b a), (Rle_dec a b); try reflexivity; try lra.
Qed.

Lemma max_fin (a b : R) : Math.max (Fin a) (Fin b) = Fin (Rmax a b).
Proof.
  unfold Math.max, JS.lt, Rltb, Rmax.
  destruct (Rlt_dec a b), (Rle_dec a b); try reflexivity; try lra.
  f_equal. lra.
Qed.

Lemma log10_fin (x : R) : 0 < x -> Math.log10 (Fin x) = Fin (log10R x).
Proof.
  intros Hx. unfold Math.log10.
  rewrite Rltb_false, Reqb_false by lra. reflexivity.
Qed.

Lemma log_fin (x : R) : 0 < x -> Math.log (Fin x) = Fin (ln x).
Proof.
  intros Hx. unfold Math.log.
  rewrite Rltb_false, Reqb_false by lra. reflexivity.
Qed.

Lemma clampR_bounds (lo hi x : R) : lo <= hi -> lo <= clampR lo hi x <= hi.
Proof.
  intros H. unfold clampR, Rmax, Rmin.
  destruct (Rle_dec hi x); destruct (Rle_dec lo _); lra.
Qed.

Lemma clampR_id (lo hi x : R) : lo <= x <= hi -> clampR lo hi x = x.
Proof.
  intros H. unfold clampR, Rmax, Rmin.
  destruct (Rle_dec hi x); destruct (Rle_dec lo _); lra.
Qed.

Lemma clampR_low (lo hi x : R) : lo <= hi -> x <= lo -> clampR lo hi x = lo.
Proof.
  intros H1 H2. unfold clampR, Rmax, Rmin.
  destruct (Rle_dec hi x); destruct (Rle_dec lo _); lra.
Qed.

Lemma clampR_high (lo hi x : R) : lo <= hi -> hi <= x -> clampR lo hi x = hi.
Proof.
  intros H1 H2. unfold clampR, Rmax, Rmin.
  destruct (Rle_dec hi x); destruct (Rle_dec lo _); lra.
Qed.

Lemma mapD50_fin (v : R) : Balance.mapD50 (Fin v) = Fin (mapD50R v).
Proof.
  unfold Balance.mapD50, mapD50R. cbn.
  rewrite (Reqb_false 99 0) by lra. cbn.
  unfold Math.real_pow. rewrite (Reqb_false 10 0), (Rltb_true 0 10) by lra.
  replace (v + - (1)) with (v - 1) by lra.
  unfold Reqb. destruct (Req_dec_T _ 0) as [Hz | Hnz]; [ | reflexivity].
  rewrite Hz, Rpower_O by lra. reflexivity.
Qed.

Lemma mapSlope_fin (v : R) : Balance.mapSlope (Fin v) = Fin (mapSlopeR v).
Proof.
  unfold Balance.mapSlope, mapSlopeR. cbn.
  rewrite (Reqb_false 100 0) by lra. reflexivity.
Qed.

Lemma mapD50R_pos (v : R) : 0 < mapD50R v.
Proof. apply Rpower10_pos. Qed.

Lemma mapSlopeR_pos (v : R) : 0 <= v -> 0 < mapSlopeR v.
Proof. intros H. unfold mapSlopeR. lra. Qed.

Lemma calculateRatio_fin (Qs D50 Qw S : R) :
  Balance.calculateRatio (Fin Qs) (Fin D50) (Fin Qw) (Fin S) =
  if Reqb (Qw * mapSlopeR S) 0 then PosInf
  else Fin (Qs * mapD50R D50 / (Qw * mapSlopeR S)).
Proof.
  unfold Balance.calculateRatio. rewrite mapD50_fin, mapSlope_fin. cbn.
  destruct (Reqb (Qw * mapSlopeR S) 0); reflexivity.
Qed.

Lemma getImbalanceIndex_fin (r : R) :
  Balance.getImbalanceIndex (Fin r) = Fin (log10R (clampR 0.01 100 r)).
Proof.
  unfold Balance.getImbalanceIndex. rewrite min_fin, max_fin.
  apply log10_fin.
  pose proof (clampR_bounds 0.01 100 r). unfold clampR in *. lra.
Qed.

Lemma getState_equilibrium (r : R) :
  0.9 <= r <= 1.1 -> Balance.getState (Fin r) = "equilibrium".
Proof.
  intros Hr. unfold Balance.getState. rewrite getImbalanceIndex_fin.
  rewrite clampR_id by lra.
  pose proof (log10R_dead_zone r Hr) as [Hlo Hhi].
  unfold JS.gt, JS.lt. rewrite !Rltb_false by lra. reflexivity.
Qed.

Lemma getChannelPattern_fin (Qs D50 Qw S ratio : R) :
  Balance.getChannelPattern (Fin Qs) (Fin D50) (Fin Qw) (Fin S) (Fin ratio) =
  if Rltb 0.5 (braidingIndexR Qs D50 ratio) then "braided"
  else if Rltb (Qw / 100) 0.15 then "straight"
       else "meandering".
Proof.
  unfold Balance.getChannelPattern, braidingIndexR.
  unfold JS.div. rewrite (Reqb_false 100 0) by lra.
  unfold JS.gt, JS.lt at 2.
  destruct (Rltb 1 ratio).
  - unfold JS.sub, JS.neg, JS.add, JS.mul. rewrite min_fin.
    replace (ratio + - (1)) with (ratio - 1) by lra. reflexivity.
  - reflexivity.
Qed.

(** Bounds on the supply-side magnitude of the midpoint grain size. *)
Lemma mapD50R_50 : 3 < mapD50R 50 < 3.1.
Proof.
  unfold mapD50R. split.
  - apply (Rpower10_gt 3 _ 33 16 0); [simpl; lra | lra].
  - apply (Rpower10_lt 3.1 _ 33 16 0); [lra | simpl; lra | lra].
Qed.

Lemma mapD50R_100 : mapD50R 100 = 100.
Proof.
  unfold mapD50R. replace (-1 + 3 * ((100 - 1) / 99)) with (INR 2) by (simpl; lra).
  rewrite Rpower_pow by lra. lra.
Qed.

(** [getChannelPattern] decides on its local [braidingIndex] first, then on
    the discharge. *)
Lemma getChannelPattern_braidingIndex (Qs D50 Qw S ratio : number) :
  Balance.getChannelPattern Qs D50 Qw S ratio =
  if (Balance.braidingIndex Qs D50 ratio > Fin 0.5)%js then "braided"
  else if (Qw / Fin 100 < Fin 0.15)%js then "straight"
       else "meandering".
Proof. reflexivity. Qed.

Lemma braidingIndex_fin (Qs D50 ratio : R) :
  Balance.braidingIndex (Fin Qs) (Fin D50) (Fin ratio) =
  Fin (braidingIndexR Qs D50 ratio).
Proof.
  unfold Balance.braidingIndex, braidingIndexR.
  unfold JS.div. rewrite (Reqb_false 100 0) by lra.
  unfold JS.gt, JS.lt.
  destruct (Rltb 1 ratio).
  - unfold JS.sub, JS.neg, JS.add, JS.mul. rewrite min_fin.
    replace (ratio + - (1)) with (ratio - 1) by lra. reflexivity.
  - reflexivity.
Qed.

(** The ratio of a finite parameter set whose water term is positive. *)
Lemma calculateRatio_pos_water (Qs D50 Qw S : R) :
  0 < Qw -> 0 <= S ->
  Balance.calculateRatio (Fin Qs) (Fin D50) (Fin Qw) (Fin S) =
  Fin (Qs * mapD50R D50 / (Qw * mapSlopeR S)).
Proof.
  intros HQw HS. rewrite calculateRatio_fin, Reqb_false; [reflexivity | ].
  apply Rgt_not_eq. apply Rmult_lt_0_compat; [assumption | ].
  apply mapSlopeR_pos; assumption.
Qed.

(** ** The end-to-end scenarios *)

Lemma midpoint_ratio :
  exists r, Balance.calculateRatio (Fin 50) (Fin 50) (Fin 50) (Fin 50) = Fin r
            /\ 0.9 <= r <= 1.1.
Proof.
  eexists. split; [apply calculateRatio_pos_water; lra | ].
  pose proof mapD50R_50 as [Hlo Hhi].
  replace (mapSlopeR 50) with 3.053 by (unfold mapSlopeR; lra).
  lra.
Qed.

(** C1. With all four parameters at the midpoint 50, the ratio
    [calculateRatio(50,50,50,50)] is classified 'equilibrium' by [getState],
    and [getChannelPattern(50,50,50,50,ratio)] with that ratio is
    'meandering'. *)
Theorem midpoint_scenario :
  let ratio := Balance.calculateRatio (Fin 50) (Fin 50) (Fin 50) (Fin 50) in
  Balance.getState ratio = "equilibrium" /\
  Balance.getChannelPattern (Fin 50) (Fin 50) (Fin 50) (Fin 50) ratio
  = "meandering".
Proof.
  destruct midpoint_ratio as (r & -> & Hr). cbv zeta. split.
  - apply getState_equilibrium, Hr.
  - rewrite getChannelPattern_fin.
    assert (Hidx : braidingIndexR 50 50 r <= 0.5).
    { unfold braidingIndexR, Rltb, Rmin.
      destruct (Rlt_dec 1 r); [destruct (Rle_dec _ _) | ]; lra. }
    rewrite Rltb_false by assumption.
    rewrite Rltb_false by lra. reflexivity.
Qed.

Lemma mapD50R_10 : mapD50R 10 < 0.6.
Proof.
  unfold mapD50R.
  apply (Rpower10_lt 0.6 _ 11 0 8); [lra | simpl; lra | lra].
Qed.

(** With [Qs = D50 = 50] and [Qw = 10] the ratio exceeds 2 on the whole
    slope domain, so the aggradation term of the braiding index is at its
    cap. *)
Lemma low_discharge_midpoint_ratio (S : R) :
  in_domain S ->
  exists r, Balance.calculateRatio (Fin 50) (Fin 50) (Fin 10) (Fin S) = Fin r
            /\ 2 < r.
Proof.
  intros [HS1 HS2]. eexists. split; [apply calculateRatio_pos_water; lra | ].
  pose proof mapD50R_50 as [Hlo _].
  assert (Hw : 0 < 10 * mapSlopeR S <= 61) by (unfold mapSlopeR; lra).
  apply Rmult_lt_reg_r with (10 * mapSlopeR S); [lra | ].
  unfold Rdiv. rewrite Rmult_assoc, Rinv_l, Rmult_1_r by lra. lra.
Qed.

Lemma low_discharge_midpoint_braided (S : R) :
  in_domain S ->
  Balance.getChannelPattern (Fin 50) (Fin 50) (Fin 10) (Fin S)
    (Balance.calculateRatio (Fin 50) (Fin 50) (Fin 10) (Fin S)) = "braided".
Proof.
  intros HS. destruct (low_discharge_midpoint_ratio S HS) as (r & -> & Hr).
  rewrite getChannelPattern_fin.
  assert (Hidx : 0.5 < braidingIndexR 50 50 r).
  { unfold braidingIndexR. rewrite Rltb_true by lra.
    unfold Rmin. destruct (Rle_dec _ _); lra. }
  rewrite Rltb_true by assumption. reflexivity.
Qed.

(** The second scenario of C2 as the claim states it fails: with [Qw = 10]
    and the moderate [Qs = D50 = 50] (and [S = 50]) the pattern is not
    'straight'. *)
Lemma low_discharge_midpoint_not_straight :
  Balance.getChannelPattern (Fin 50) (Fin 50) (Fin 10) (Fin 50)
    (Balance.calculateRatio (Fin 50) (Fin 50) (Fin 10) (Fin 50))
  <> "straight".
Proof.
  rewrite low_discharge_midpoint_braided by (unfold in_domain; lra).
  discriminate.
Qed.

(** C2 (amended). With [Qs = 100, D50 = 100, Qw = 50, S = 50] and the ratio
    of these parameters, the braiding index exceeds 0.5 and the pattern is
    'braided'.  With [Qw = 10] the pattern is 'straight' exactly when the
    braiding index does not exceed 0.5, and 'braided' otherwise: it is
    'straight' for [Qs = 50, D50 = 10, S = 50] with the ratio of these
    parameters. *)
Theorem pattern_boundary_scenarios :
  (let ratio := Balance.calculateRatio (Fin 100) (Fin 100) (Fin 50) (Fin 50) in
   (Balance.braidingIndex (Fin 100) (Fin 100) ratio > Fin 0.5)%js = true /\
   Balance.getChannelPattern (Fin 100) (Fin 100) (Fin 50) (Fin 50) ratio
   = "braided") /\
  (forall Qs D50 S ratio : number,
     Balance.getChannelPattern Qs D50 (Fin 10) S ratio =
     if (Balance.braidingIndex Qs D50 ratio > Fin 0.5)%js
     then "braided" else "straight") /\
  Balance.getChannelPattern (Fin 50) (Fin 10) (Fin 10) (Fin 50)
    (Balance.calculateRatio (Fin 50) (Fin 10) (Fin 10) (Fin 50)) = "straight".
Proof.
  split; [ | split].
  - cbv zeta. rewrite calculateRatio_pos_water by lra.
    set (r := 100 * mapD50R 100 / (50 * mapSlopeR 50)).
    assert (Hr : 2 < r).
    { unfold r. rewrite mapD50R_100.
      replace (mapSlopeR 50) with 3.053 by (unfold mapSlopeR; lra). lra. }
    assert (Hidx : 0.5 < braidingIndexR 100 100 r).
    { unfold braidingIndexR. rewrite Rltb_true by lra.
      unfold Rmin. destruct (Rle_dec _ _); lra. }
    rewrite getChannelPattern_fin, braidingIndex_fin.
    unfold JS.gt, JS.lt. rewrite Rltb_true by assumption.
    split; reflexivity.
  - intros Qs D50 S ratio. rewrite getChannelPattern_braidingIndex.
    replace (Fin 10 / Fin 100 < Fin 0.15)%js with true; [reflexivity | ].
    unfold JS.div, JS.lt. rewrite Reqb_false by lra.
    rewrite Rltb_true by lra. reflexivity.
  - rewrite calculateRatio_pos_water by lra.
    set (r := 50 * mapD50R 10 / (10 * mapSlopeR 50)).
    assert (Hr : r < 1).
    { unfold r. pose proof mapD50R_10. pose proof (mapD50R_pos 10).
      replace (mapSlopeR 50) with 3.053 by (unfold mapSlopeR; lra). lra. }
    rewrite getChannelPattern_fin.
    assert (Hidx : braidingIndexR 50 10 r <= 0.5).
    { unfold braidingIndexR. rewrite Rltb_false by lra. lra. }
    rewrite Rltb_false by assumption.
    rewrite Rltb_true by lra. reflexivity.
Qed.

(** ** Arguments outside the slider domain *)

Lemma mapD50R_lt (v w : R) : v < w -> mapD50R v < mapD50R w.
Proof. intros H. unfold mapD50R. apply Rpower_lt; lra. Qed.

Lemma ratio_lt_supply (a a' w : R) : 0 < w -> a < a' -> a / w < a' / w.
Proof.
  intros Hw Ha. unfold Rdiv. apply Rmult_lt_compat_r; [ | assumption].
  apply Rinv_0_lt_compat, Hw.
Qed.

Lemma mapD50R_199 : mapD50R 199 = 100000.
Proof.
  unfold mapD50R. replace (-1 + 3 * ((199 - 1) / 99)) with (INR 5) by (simpl; lra).
  rewrite Rpower_pow by lra. lra.
Qed.

(** C3 as the claim states it fails: [mapSlope(200)], [mapD50(199)] and
    [calculateRatio(0, 50, 50, 50)] have an argument outside [1,100], and
    each call returns a number (about 11.912, about 100000, and 0) instead
    of throwing. *)
Lemma out_of_domain_calls_return :
  (exists m : R,
     Call.mapSlope (Fin 200) = Return (Fin m) /\ 11.9 < m < 11.92) /\
  (exists g : R,
     Call.mapD50 (Fin 199) = Return (Fin g) /\ 99999 < g < 100001) /\
  Call.calculateRatio (Fin 0) (Fin 50) (Fin 50) (Fin 50) = Return (Fin 0).
Proof.
  unfold Call.mapSlope, Call.mapD50, Call.calculateRatio.
  rewrite mapSlope_fin, mapD50_fin, calculateRatio_pos_water by lra.
  rewrite mapD50R_199. split; [ | split].
  - eexists. split; [reflexivity | ]. unfold mapSlopeR. lra.
  - eexists. split; [reflexivity | ]. lra.
  - do 2 f_equal. unfold Rdiv. rewrite !Rmult_0_l. reflexivity.
Qed.

(** C3 (amended). No argument is rejected and none is clamped.  For every
    argument whatsoever (finite, infinite or NaN) a call of [mapSlope], of
    [mapD50] or of [calculateRatio] returns a number and does not throw.
    An argument of 101 or more gives [mapSlope] and [mapD50] a value above
    the one at 100, and an argument of 0 or less a value below the one at
    1; with the other parameters in [1,100], [calculateRatio] is above its
    value at [Qs = 100] for every [Qs] of 101 or more, and is not positive
    for [Qs] of 0 or less. *)
Theorem out_of_domain_not_rejected :
  (forall v : number, exists n, Call.mapSlope v = Return n) /\
  (forall v : number, exists n, Call.mapD50 v = Return n) /\
  (forall Qs D50 Qw S : number,
     exists n, Call.calculateRatio Qs D50 Qw S = Return n) /\
  (forall v : R,
     101 <= v ->
     (exists a b, Call.mapSlope (Fin v) = Return a /\
                  Call.mapSlope (Fin 100) = Return b /\ (a > b)%js = true) /\
     (exists a b, Call.mapD50 (Fin v) = Return a /\
                  Call.mapD50 (Fin 100) = Return b /\ (a > b)%js = true)) /\
  (forall v : R,
     v <= 0 ->
     (exists a b, Call.mapSlope (Fin v) = Return a /\
                  Call.mapSlope (Fin 1) = Return b /\ (a < b)%js = true) /\
     (exists a b, Call.mapD50 (Fin v) = Return a /\
                  Call.mapD50 (Fin 1) = Return b /\ (a < b)%js = true)) /\
  (forall Qs D50 Qw S : R,
     in_domain D50 -> in_domain Qw -> in_domain S ->
     (101 <= Qs ->
      exists a b,
        Call.calculateRatio (Fin Qs) (Fin D50) (Fin Qw) (Fin S) = Return a /\
        Call.calculateRatio (Fin 100) (Fin D50) (Fin Qw) (Fin S) = Return b /\
        (a > b)%js = true) /\
     (Qs <= 0 ->
      exists a,
        Call.calculateRatio (Fin Qs) (Fin D50) (Fin Qw) (Fin S) = Return a /\
        (a <= Fin 0)%js = true)).
Proof.
  unfold Call.mapSlope, Call.mapD50, Call.calculateRatio.
  split; [ | split; [ | split; [ | split; [ | split]]]].
  - intros v. eexists. reflexivity.
  - intros v. eexists. reflexivity.
  - intros Qs D50 Qw S. eexists. reflexivity.
  - intros v Hv. split; do 2 eexists;
      (split; [reflexivity | split; [reflexivity | ]]).
    + rewrite !mapSlope_fin. apply Rltb_true. unfold mapSlopeR. lra.
    + rewrite !mapD50_fin. apply Rltb_true. apply mapD50R_lt. lra.
  - intros v Hv. split; do 2 eexists;
      (split; [reflexivity | split; [reflexivity | ]]).
    + rewrite !mapSlope_fin. apply Rltb_true. unfold mapSlopeR. lra.
    + rewrite !mapD50_fin. apply Rltb_true. apply mapD50R_lt. lra.
  - unfold in_domain. intros Qs D50 Qw S HD50 HQw HS.
    pose proof (mapD50R_pos D50) as Hm.
    pose proof (mapSlopeR_pos S ltac:(lra)) as Hs.
    assert (Hw : 0 < Qw * mapSlopeR S) by (apply Rmult_lt_0_compat; lra).
    split; intros HQs.
    + do 2 eexists. split; [reflexivity | split; [reflexivity | ]].
      rewrite !calculateRatio_pos_water by lra. apply Rltb_true.
      apply ratio_lt_supply; [exact Hw | ].
      apply Rmult_lt_compat_r; lra.
    + eexists. split; [reflexivity | ].
      rewrite calculateRatio_pos_water by lra. apply Rleb_true.
      assert (Hi : 0 < / (Qw * mapSlopeR S)) by apply Rinv_0_lt_compat, Hw.
      assert (Hn : Qs * mapD50R D50 <= 0) by nra.
      unfold Rdiv. nra.
Qed.

Lemma out_of_domain_not_rejected_witness :
  (101 <= 200 /\ -5 <= 0 /\ in_domain 50) /\
  ((exists a b, Call.mapSlope (Fin 200) = Return a /\
                Call.mapSlope (Fin 100) = Return b /\ (a > b)%js = true) /\
   (exists a b, Call.mapD50 (Fin 200) = Return a /\
                Call.mapD50 (Fin 100) = Return b /\ (a > b)%js = true)) /\
  ((exists a b, Call.mapSlope (Fin (-5)) = Return a /\
                Call.mapSlope (Fin 1) = Return b /\ (a < b)%js = true) /\
   (exists a b, Call.mapD50 (Fin (-5)) = Return a /\
                Call.mapD50 (Fin 1) = Return b /\ (a < b)%js = true)) /\
  (exists a b,
     Call.calculateRatio (Fin 200) (Fin 50) (Fin 50) (Fin 50) = Return a /\
     Call.calculateRatio (Fin 100) (Fin 50) (Fin 50) (Fin 50) = Return b /\
     (a > b)%js = true) /\
  (exists a,
     Call.calculateRatio (Fin (-5)) (Fin 50) (Fin 50) (Fin 50) = Return a /\
     (a <= Fin 0)%js = true).
Proof.
  assert (H1 : 101 <= 200) by lra.
  assert (H2 : -5 <= 0) by lra.
  assert (H3 : in_domain 50) by (unfold in_domain; lra).
  split; [exact (conj H1 (conj H2 H3)) | ].
  destruct out_of_domain_not_rejected as (_ & _ & _ & Hhigh & Hlow & Hratio).
  split; [exact (Hhigh 200 H1) | ].
  split; [exact (Hlow (-5) H2) | ].
  split.
  - exact (proj1 (Hratio 200 50 50 50 H3 H3 H3) H1).
  - exact (proj2 (Hratio (-5) 50 50 50 H3 H3 H3) H2).
Defined.

(** ** Monotonicity of the ratio *)

Lemma ratio_le_supply (a a' w : R) : 0 < w -> a <= a' -> a / w <= a' / w.
Proof.
  intros Hw Ha. unfold Rdiv. apply Rmult_le_compat_r; [ | assumption].
  left. apply Rinv_0_lt_compat, Hw.
Qed.

Lemma ratio_le_water (a w w' : R) :
  0 <= a -> 0 < w -> w <= w' -> a / w' <= a / w.
Proof.
  intros Ha Hw Hww. unfold Rdiv. apply Rmult_le_compat_l; [assumption | ].
  apply Rinv_le_contravar; assumption.
Qed.

(** C4. For parameters in [1,100]: with [D50], [Qw] and [S] fixed the ratio
    does not decrease when [Qs] grows, and with [Qs], [D50] and [S] fixed it
    does not increase when [Qw] grows. *)
Theorem calculateRatio_monotone (Qs Qs' D50 Qw Qw' S : R) :
  in_domain Qs -> in_domain Qs' -> in_domain D50 ->
  in_domain Qw -> in_domain Qw' -> in_domain S ->
  (Qs <= Qs' ->
   (Balance.calculateRatio (Fin Qs) (Fin D50) (Fin Qw) (Fin S)
    <= Balance.calculateRatio (Fin Qs') (Fin D50) (Fin Qw) (Fin S))%js = true)
  /\
  (Qw <= Qw' ->
   (Balance.calculateRatio (Fin Qs) (Fin D50) (Fin Qw') (Fin S)
    <= Balance.calculateRatio (Fin Qs) (Fin D50) (Fin Qw) (Fin S))%js = true).
Proof.
  unfold in_domain. intros HQs HQs' HD50 HQw HQw' HS.
  pose proof (mapD50R_pos D50) as Hm.
  pose proof (mapSlopeR_pos S) as Hs.
  rewrite !calculateRatio_pos_water by lra. unfold JS.le.
  split; intros Hle; apply Rleb_true.
  - apply ratio_le_supply.
    + apply Rmult_lt_0_compat; lra.
    + apply Rmult_le_compat_r; lra.
  - apply ratio_le_water.
    + apply Rmult_le_pos; lra.
    + apply Rmult_lt_0_compat; lra.
    + apply Rmult_le_compat_r; lra.
Qed.

Lemma calculateRatio_monotone_witness :
  (in_domain 10 /\ in_domain 20 /\ in_domain 50 /\
   in_domain 30 /\ in_domain 40 /\ in_domain 50) /\
  (Balance.calculateRatio (Fin 10) (Fin 50) (Fin 30) (Fin 50)
   <= Balance.calculateRatio (Fin 20) (Fin 50) (Fin 30) (Fin 50))%js = true /\
  (Balance.calculateRatio (Fin 10) (Fin 50) (Fin 40) (Fin 50)
   <= Balance.calculateRatio (Fin 10) (Fin 50) (Fin 30) (Fin 50))%js = true.
Proof.
  assert (H : in_domain 10 /\ in_domain 20 /\ in_domain 50 /\
              in_domain 30 /\ in_domain 40 /\ in_domain 50)
    by (unfold in_domain; lra).
  split; [exact H | ].
  destruct H as (H1 & H2 & H3 & H4 & H5 & H6).
  destruct (calculateRatio_monotone 10 20 50 30 40 50 H1 H2 H3 H4 H5 H6)
    as [Hs Hw].
  split; [apply Hs | apply Hw]; lra.
Defined.

(** ** Seed and pseudo-randomness *)

Lemma pseudoRandom_fin (this : PlanView.state) (n : R) :
  PlanView.pseudoRandom this (Fin n) =
  Fin (Rtrigo_def.sin n * 10000 - IZR (Zfloor (Rtrigo_def.sin n * 10000))).
Proof. reflexivity. Qed.

(** ** The tilt angle *)

Lemma ln_01 : ln 0.1 = - ln 10.
Proof. replace 0.1 with (/ 10) by lra. apply ln_Rinv. lra. Qed.

Lemma tilt_scale : (Fin 30 / Math.log (Fin 10))%js = Fin (30 / ln 10).
Proof.
  rewrite log_fin by lra. unfold JS.div.
  rewrite Reqb_false; [reflexivity | ]. apply Rgt_not_eq, ln10_pos.
Qed.

Lemma calculateTiltAngle_fin (r : R) :
  Balance.calculateTiltAngle (Fin r) =
  Fin (- ln (clampR 0.1 10 r) * (30 / ln 10)).
Proof.
  unfold Balance.calculateTiltAngle. rewrite tilt_scale, min_fin, max_fin.
  rewrite log_fin; [reflexivity | ].
  pose proof (clampR_bounds 0.1 10 r). unfold clampR in *. lra.
Qed.

Lemma calculateTiltAngle_PosInf :
  Balance.calculateTiltAngle PosInf = Fin (- ln 10 * (30 / ln 10)).
Proof.
  unfold Balance.calculateTiltAngle. rewrite tilt_scale.
  replace (Math.min (Fin 10) PosInf) with (Fin 10) by reflexivity.
  rewrite max_fin. replace (Rmax 0.1 10) with 10
    by (unfold Rmax; destruct (Rle_dec _ _); lra).
  rewrite log_fin by lra. reflexivity.
Qed.

Lemma calculateTiltAngle_NegInf :
  Balance.calculateTiltAngle NegInf = Fin (- ln 0.1 * (30 / ln 10)).
Proof.
  unfold Balance.calculateTiltAngle. rewrite tilt_scale.
  replace (Math.min (Fin 10) NegInf) with NegInf by reflexivity.
  replace (Math.max (Fin 0.1) NegInf) with (Fin 0.1) by reflexivity.
  rewrite log_fin by lra. reflexivity.
Qed.

Lemma tilt_low : - ln 0.1 * (30 / ln 10) = 30.
Proof. rewrite ln_01. field. apply Rgt_not_eq, ln10_pos. Qed.

Lemma tilt_high : - ln 10 * (30 / ln 10) = -30.
Proof. field. apply Rgt_not_eq, ln10_pos. Qed.

(** The angle of a clamped ratio [c]: within [-30, 30], and negative when
    [c] exceeds 1. *)
Lemma tilt_range (c : R) :
  0.1 <= c <= 10 ->
  -30 <= - ln c * (30 / ln 10) <= 30 /\
  (1 < c -> - ln c * (30 / ln 10) < 0).
Proof.
  intros [Hlo Hhi].
  replace (- ln c * (30 / ln 10)) with (-30 * log10R c)
    by (unfold log10R; field; apply Rgt_not_eq, ln10_pos).
  assert (H1 : log10R 0.1 <= log10R c) by (apply log10R_incr; lra).
  assert (H2 : log10R c <= log10R 10) by (apply log10R_incr; lra).
  assert (E1 : log10R 0.1 = -1).
  { unfold log10R. rewrite ln_01. field. apply Rgt_not_eq, ln10_pos. }
  assert (E2 : log10R 10 = 1).
  { unfold log10R. field. apply Rgt_not_eq, ln10_pos. }
  split; [lra | ].
  intros Hc. pose proof (log10R_lt 1 c ltac:(lra) Hc) as H3.
  rewrite log10R_1 in H3. lra.
Qed.

(** C6 as the claim states it fails: for the ratio 0.05 (as for every ratio
    of 0.1 or less) the angle computed is 29.999999999999996, not 30:
    [Math.log(0.1)] is -2.3025850929940455 and [Math.log(10)] is
    2.302585092994046, so that [-logRatio * scaleFactor] falls one unit in
    the last place short of 30. *)
Lemma low_saturation_below_30 :
  Binary64.Balance.calculateTiltAngle 0.05 = 29.999999999999996%float /\
  (Binary64.Balance.calculateTiltAngle 0.05 =? 30)%float = false /\
  Binary64.Balance.calculateTiltAngle 20 = (-30)%float.
Proof. repeat split; vm_compute; reflexivity. Qed.

(** C6 (amended). The tilt angle saturates and is inverted: for every ratio
    at most 0.1 it is the angle of the ratio 0.1, which is +30 up to
    rounding (between 30 - 1e-9 and 30), and it is -30 for every ratio at
    least 10; for every positive ratio it lies in [-30, 30]; for every ratio
    above 1 it is negative. *)
Theorem calculateTiltAngle_saturates (ratio : number) :
  ((ratio <= Fin 0.1)%js = true ->
   Balance.calculateTiltAngle ratio = Balance.calculateTiltAngle (Fin 0.1) /\
   exists a, Balance.calculateTiltAngle ratio = Fin a /\
             30 - 1 / 10 ^ 9 <= a <= 30) /\
  ((ratio >= Fin 10)%js = true ->
   Balance.calculateTiltAngle ratio = Fin (-30)) /\
  ((ratio > Fin 0)%js = true ->
   exists a, Balance.calculateTiltAngle ratio = Fin a /\ -30 <= a <= 30) /\
  ((ratio > Fin 1)%js = true ->
   exists a, Balance.calculateTiltAngle ratio = Fin a /\ a < 0).
Proof.
  assert (Hlow : Balance.calculateTiltAngle (Fin 0.1) = Fin 30).
  { rewrite calculateTiltAngle_fin, clampR_low by lra. f_equal. apply tilt_low. }
  rewrite Hlow.
  destruct ratio as [r | | | ].
  - rewrite calculateTiltAngle_fin. unfold JS.ge, JS.gt, JS.le, JS.lt.
    pose proof (clampR_bounds 0.1 10 r ltac:(lra)) as Hc.
    destruct (tilt_range _ Hc) as [Hrange Hneg].
    split; [ | split; [ | split]].
    + intros H%Rleb_spec. rewrite clampR_low by lra. rewrite tilt_low.
      split; [reflexivity | ]. eexists. split; [reflexivity | lra].
    + intros H%Rleb_spec. rewrite clampR_high by lra. f_equal. apply tilt_high.
    + intros _. eexists. split; [reflexivity | exact Hrange].
    + intros H%Rltb_spec. eexists. split; [reflexivity | ].
      apply Hneg.
      unfold clampR, Rmax, Rmin.
      destruct (Rle_dec 10 r); destruct (Rle_dec 0.1 _); lra.
  - rewrite calculateTiltAngle_PosInf, tilt_high. cbn.
    split; [ | split; [ | split]]; try discriminate; intros _;
      try reflexivity; eexists; (split; [reflexivity | lra]).
  - rewrite calculateTiltAngle_NegInf, tilt_low. cbn.
    split; [ | split; [ | split]]; try discriminate; intros _.
    split; [reflexivity | ]. eexists. split; [reflexivity | lra].
  - cbn. split; [ | split; [ | split]]; discriminate.
Qed.

Lemma calculateTiltAngle_saturates_witness :
  ((Fin 0.05 <= Fin 0.1)%js = true /\
   Balance.calculateTiltAngle (Fin 0.05) = Balance.calculateTiltAngle (Fin 0.1) /\
   exists a, Balance.calculateTiltAngle (Fin 0.05) = Fin a /\
             30 - 1 / 10 ^ 9 <= a <= 30) /\
  ((Fin 20 >= Fin 10)%js = true /\
   Balance.calculateTiltAngle (Fin 20) = Fin (-30)) /\
  ((Fin 0.5 > Fin 0)%js = true /\
   exists a, Balance.calculateTiltAngle (Fin 0.5) = Fin a /\ -30 <= a <= 30) /\
  ((Fin 2 > Fin 1)%js = true /\
   exists a, Balance.calculateTiltAngle (Fin 2) = Fin a /\ a < 0).
Proof.
  assert (H1 : (Fin 0.05 <= Fin 0.1)%js = true) by (apply Rleb_true; lra).
  assert (H2 : (Fin 20 >= Fin 10)%js = true) by (apply Rleb_true; lra).
  assert (H3 : (Fin 0.5 > Fin 0)%js = true) by (apply Rltb_true; lra).
  assert (H4 : (Fin 2 > Fin 1)%js = true) by (apply Rltb_true; lra).
  split; [ | split; [ | split]]; (split; [assumption | ]).
  - apply (calculateTiltAngle_saturates (Fin 0.05)), H1.
  - apply (calculateTiltAngle_saturates (Fin 20)), H2.
  - apply (calculateTiltAngle_saturates (Fin 0.5)), H3.
  - apply (calculateTiltAngle_saturates (Fin 2)), H4.
Defined.

(** ** The imbalance index *)

(** C7. The imbalance index is [log10(clamp(r, 0.01, 100))], and it is odd
    under inversion of the ratio: for every [r] in (0, 100],
    [getImbalanceIndex(r) = -getImbalanceIndex(1/r)]. *)
Theorem getImbalanceIndex_odd (r : R) :
  0 < r <= 100 ->
  Balance.getImbalanceIndex (Fin r) = Fin (log10R (clampR 0.01 100 r)) /\
  Balance.getImbalanceIndex (Fin r) =
  (- Balance.getImbalanceIndex (Fin 1 / Fin r))%js.
Proof.
  intros [Hpos Hhi]. split; [apply getImbalanceIndex_fin | ].
  unfold JS.div. rewrite Reqb_false by lra.
  rewrite !getImbalanceIndex_fin. unfold JS.neg. f_equal.
  replace (1 / r) with (/ r) by lra.
  destruct (Rle_lt_dec 0.01 r) as [Hlo | Hlo].
  - rewrite (clampR_id 0.01 100 r) by lra.
    assert (Hinv : 0.01 <= / r <= 100).
    { split.
      - replace 0.01 with (/ 100) by lra. apply Rinv_le_contravar; lra.
      - replace 100 with (/ 0.01) by lra. apply Rinv_le_contravar; lra. }
    rewrite (clampR_id 0.01 100 (/ r)) by assumption.
    rewrite log10R_inv by assumption. lra.
  - rewrite (clampR_low 0.01 100 r) by lra.
    assert (Hinv : 100 <= / r).
    { replace 100 with (/ 0.01) by lra. apply Rinv_le_contravar; lra. }
    rewrite (clampR_high 0.01 100 (/ r)) by lra.
    rewrite log10R_001, log10R_100. lra.
Qed.

Lemma getImbalanceIndex_odd_witness :
  0 < 4 <= 100 /\
  Balance.getImbalanceIndex (Fin 4) = Fin (log10R (clampR 0.01 100 4)) /\
  Balance.getImbalanceIndex (Fin 4) =
  (- Balance.getImbalanceIndex (Fin 1 / Fin 4))%js.
Proof.
  assert (H : 0 < 4 <= 100) by lra.
  split; [exact H | apply (getImbalanceIndex_odd 4 H)].
Defined.

(** ** The division-by-zero guard *)

(** C8 as the claim states it fails: with an infinite sediment supply the
    ratio is positive infinity although the water term, 50 * 3.053, is not
    zero. *)
Lemma infinite_ratio_without_zero_water :
  Balance.calculateRatio PosInf (Fin 50) (Fin 50) (Fin 50) = PosInf /\
  (Fin 50 * Balance.mapSlope (Fin 50) === Fin 0)%js = false /\
  exists w : R, (Fin 50 * Balance.mapSlope (Fin 50))%js = Fin w /\ 152 < w < 153.
Proof.
  assert (Hw : (Fin 50 * Balance.mapSlope (Fin 50))%js = Fin (50 * mapSlopeR 50))
    by (rewrite mapSlope_fin; reflexivity).
  assert (Hv : 152 < 50 * mapSlopeR 50 < 153) by (unfold mapSlopeR; lra).
  split; [ | split].
  - unfold Balance.calculateRatio. rewrite Hw, mapD50_fin.
    unfold JS.strict_eq. rewrite Reqb_false by lra.
    cbn [JS.mul]. unfold JS.scaled_inf.
    rewrite (Rltb_true 0 (mapD50R 50)) by apply mapD50R_pos.
    cbn [JS.div]. rewrite Rltb_false by lra. reflexivity.
  - rewrite Hw. unfold JS.strict_eq. apply Reqb_false. lra.
  - eexists. split; [exact Hw | exact Hv].
Qed.

(** C8 (amended). [calculateRatio] returns positive infinity whenever its
    water term [Qw * mapSlope(S)] is zero, whatever the four arguments;
    when the four parameters lie in [1,100] the water term is strictly
    positive, and the ratio returned is a finite positive number. *)
Theorem division_by_zero_guard :
  (forall Qs D50 Qw S : number,
     (Qw * Balance.mapSlope S === Fin 0)%js = true ->
     Balance.calculateRatio Qs D50 Qw S = PosInf) /\
  (forall Qs D50 Qw S : R,
     in_domain Qs -> in_domain D50 -> in_domain Qw -> in_domain S ->
     (exists w, (Fin Qw * Balance.mapSlope (Fin S))%js = Fin w /\ 0 < w) /\
     (exists r, Balance.calculateRatio (Fin Qs) (Fin D50) (Fin Qw) (Fin S)
                = Fin r /\ 0 < r)).
Proof.
  split.
  - intros Qs D50 Qw S Hz. unfold Balance.calculateRatio. rewrite Hz.
    reflexivity.
  - unfold in_domain. intros Qs D50 Qw S HQs HD50 HQw HS.
    pose proof (mapD50R_pos D50) as Hm.
    pose proof (mapSlopeR_pos S ltac:(lra)) as Hs.
    assert (Hw : 0 < Qw * mapSlopeR S) by (apply Rmult_lt_0_compat; lra).
    split.
    + rewrite mapSlope_fin. eexists. split; [reflexivity | exact Hw].
    + rewrite calculateRatio_pos_water by lra.
      eexists. split; [reflexivity | ].
      apply Rdiv_lt_0_compat; [ | exact Hw].
      apply Rmult_lt_0_compat; lra.
Qed.

Lemma division_by_zero_guard_witness :
  ((Fin 0 * Balance.mapSlope (Fin 50) === Fin 0)%js = true /\
   Balance.calculateRatio (Fin 50) (Fin 50) (Fin 0) (Fin 50) = PosInf) /\
  ((in_domain 50 /\ in_domain 50 /\ in_domain 50 /\ in_domain 50) /\
   (exists w, (Fin 50 * Balance.mapSlope (Fin 50))%js = Fin w /\ 0 < w) /\
   (exists r, Balance.calculateRatio (Fin 50) (Fin 50) (Fin 50) (Fin 50) = Fin r
              /\ 0 < r)).
Proof.
  assert (Hz : (Fin 0 * Balance.mapSlope (Fin 50) === Fin 0)%js = true).
  { rewrite mapSlope_fin. cbn [JS.mul JS.strict_eq]. apply Reqb_true. lra. }
  assert (H : in_domain 50) by (unfold in_domain; lra).
  destruct division_by_zero_guard as [Hguard Hdomain].
  split.
  - split; [exact Hz | exact (Hguard (Fin 50) (Fin 50) (Fin 0) (Fin 50) Hz)].
  - split; [exact (conj H (conj H (conj H H))) | ].
    exact (Hdomain 50 50 50 50 H H H H).
Defined.

(** ** Active processes *)

Lemma getState_cases (ratio : number) :
  Balance.getState ratio = "degradation" \/
  Balance.getState ratio = "aggradation" \/
  Balance.getState ratio = "equilibrium".
Proof.
  unfold Balance.getState.
  destruct (_ < _)%js; [left; reflexivity | ].
  destruct (_ > _)%js; [right; left | right; right]; reflexivity.
Qed.

(** C9. Every process listed by [getActiveProcesses(ratio, Qw, S)] carries as
    its [type] the regime [getState(ratio)], and the list is never empty. *)
Theorem processes_match_state (ratio Qw S : number) :
  Balance.getActiveProcesses ratio Qw S <> [] /\
  Forall (fun p => type p = Balance.getState ratio)
    (Balance.getActiveProcesses ratio Qw S).
Proof.
  unfold Balance.getActiveProcesses.
  destruct (getState_cases ratio) as [E | [E | E]]; rewrite E; cbn;
    repeat match goal with
      | |- context [if ?c then _ else _] => destruct c
      end;
    (split; [discriminate | repeat constructor]).
Qed.

(** ** The infinite ratio downstream *)

(** C10. The infinite ratio that [calculateRatio] returns for a zero water
    term is absorbed by the clamp: its imbalance index is exactly 2, and its
    regime is 'aggradation'. *)
Theorem infinite_ratio_absorbed :
  (forall Qs D50 S : R,
     Balance.calculateRatio (Fin Qs) (Fin D50) (Fin 0) (Fin S) = PosInf) /\
  Balance.getImbalanceIndex PosInf = Fin 2 /\
  Balance.getState PosInf = "aggradation".
Proof.
  assert (Hidx : Balance.getImbalanceIndex PosInf = Fin 2).
  { unfold Balance.getImbalanceIndex.
    replace (Math.min (Fin 100) PosInf) with (Fin 100) by reflexivity.
    rewrite max_fin. replace (Rmax 0.01 100) with 100
      by (unfold Rmax; destruct (Rle_dec _ _); lra).
    rewrite log10_fin by lra. rewrite log10R_100. reflexivity. }
  split; [ | split].
  - intros Qs D50 S. rewrite calculateRatio_fin, Reqb_true; [reflexivity | lra].
  - exact Hidx.
  - unfold Balance.getState. rewrite Hidx. unfold JS.gt, JS.lt.
    rewrite Rltb_false, Rltb_true by lra. reflexivity.
Qed.

(** * Further properties of the calculation core *)

(** ** The two parameter mappings *)

Lemma mapD50R_1 : mapD50R 1 = 0.1.
Proof.
  unfold mapD50R. replace (-1 + 3 * ((1 - 1) / 99)) with (- INR 1) by (simpl; lra).
  rewrite Rpower_Ropp, Rpower_pow by lra. lra.
Qed.

Lemma mapD50R_le (v w : R) : v <= w -> mapD50R v <= mapD50R w.
Proof.
  intros [H | H]; [left; apply mapD50R_lt, H | subst; right; reflexivity].
Qed.

(** X1. The grain-size mapping sends 1 to 0.1 and 100 to 100, is strictly
    increasing on the slider domain, and so maps it into [0.1, 100]. *)
Theorem mapD50_increasing_bounded :
  Balance.mapD50 (Fin 1) = Fin 0.1 /\
  Balance.mapD50 (Fin 100) = Fin 100 /\
  (forall v w : R,
     in_domain v -> in_domain w ->
     v < w -> (Balance.mapD50 (Fin v) < Balance.mapD50 (Fin w))%js = true) /\
  (forall v : R,
     in_domain v ->
     exists m, Balance.mapD50 (Fin v) = Fin m /\ 0.1 <= m <= 100).
Proof.
  split; [ | split; [ | split]].
  - rewrite mapD50_fin, mapD50R_1. reflexivity.
  - rewrite mapD50_fin, mapD50R_100. reflexivity.
  - intros v w _ _ H. rewrite !mapD50_fin. apply Rltb_true, mapD50R_lt, H.
  - intros v [H1 H2]. rewrite mapD50_fin. eexists. split; [reflexivity | ].
    split.
    + rewrite <- mapD50R_1. apply mapD50R_le, H1.
    + rewrite <- mapD50R_100. apply mapD50R_le, H2.
Qed.

Lemma mapD50_increasing_bounded_witness :
  (in_domain 34 /\ in_domain 67 /\ 34 < 67) /\
  (Balance.mapD50 (Fin 34) < Balance.mapD50 (Fin 67))%js = true /\
  exists m, Balance.mapD50 (Fin 34) = Fin m /\ 0.1 <= m <= 100.
Proof.
  assert (H1 : in_domain 34) by (unfold in_domain; lra).
  assert (H2 : in_domain 67) by (unfold in_domain; lra).
  assert (H3 : 34 < 67) by lra.
  split; [exact (conj H1 (conj H2 H3)) | ].
  destruct mapD50_increasing_bounded as (_ & _ & Hincr & Hrange).
  split; [exact (Hincr 34 67 H1 H2 H3) | exact (Hrange 34 H1)].
Defined.

(** The binary64 values of the slope mapping at the two ends of the slider
    domain and at 200: the last digits of 6.006 and of 11.912 are lost to
    rounding. *)
Lemma mapSlope_binary64 :
  Binary64.Balance.mapSlope 1 = 0.15906%float /\
  Binary64.Balance.mapSlope 100 = 6.005999999999999%float /\
  Binary64.Balance.mapSlope 200 = 11.911999999999999%float.
Proof. repeat split; vm_compute; reflexivity. Qed.

(** X2. The slope mapping is linear and strictly increasing; its values at 1
    and at 100 are 0.15906 and 6.006 up to rounding (within 1e-9), and on
    the slider domain it stays between the two. *)
Theorem mapSlope_increasing_bounded :
  (exists lo hi : R,
     Balance.mapSlope (Fin 1) = Fin lo /\
     Balance.mapSlope (Fin 100) = Fin hi /\
     Rabs (lo - 0.15906) <= 1 / 10 ^ 9 /\
     Rabs (hi - 6.006) <= 1 / 10 ^ 9) /\
  (forall v w : R,
     v < w -> (Balance.mapSlope (Fin v) < Balance.mapSlope (Fin w))%js = true) /\
  (forall v : R,
     in_domain v ->
     (Balance.mapSlope (Fin 1) <= Balance.mapSlope (Fin v))%js = true /\
     (Balance.mapSlope (Fin v) <= Balance.mapSlope (Fin 100))%js = true).
Proof.
  split; [ | split].
  - rewrite !mapSlope_fin. do 2 eexists.
    split; [reflexivity | split; [reflexivity | ]].
    unfold mapSlopeR.
    replace (0.1 + 1 / 100 * 5.906 - 0.15906) with 0 by lra.
    replace (0.1 + 100 / 100 * 5.906 - 6.006) with 0 by lra.
    rewrite Rabs_R0. lra.
  - intros v w H. rewrite !mapSlope_fin. apply Rltb_true. unfold mapSlopeR. lra.
  - intros v [H1 H2]. rewrite !mapSlope_fin.
    split; apply Rleb_true; unfold mapSlopeR; lra.
Qed.

Lemma mapSlope_increasing_bounded_witness :
  (20 < 50 /\ in_domain 50) /\
  (Balance.mapSlope (Fin 20) < Balance.mapSlope (Fin 50))%js = true /\
  (Balance.mapSlope (Fin 1) <= Balance.mapSlope (Fin 50))%js = true /\
  (Balance.mapSlope (Fin 50) <= Balance.mapSlope (Fin 100))%js = true.
Proof.
  assert (H1 : 20 < 50) by lra.
  assert (H2 : in_domain 50) by (unfold in_domain; lra).
  split; [exact (conj H1 H2) | ].
  destruct mapSlope_increasing_bounded as (_ & Hincr & Hrange).
  split; [exact (Hincr 20 50 H1) | exact (Hrange 50 H2)].
Defined.

(** ** More on the ratio *)

Lemma ratio_lt_water (a w w' : R) :
  0 < a -> 0 < w -> w < w' -> a / w' < a / w.
Proof.
  intros Ha Hw Hww. unfold Rdiv. apply Rmult_lt_compat_l; [assumption | ].
  apply Rinv_lt_contravar; [ | assumption].
  apply Rmult_lt_0_compat; lra.
Qed.

(** X3. For parameters in [1,100], the ratio grows strictly with the grain
    size [D50] and falls strictly with the slope [S]. *)
Theorem calculateRatio_grain_slope (Qs D50 D50' Qw S S' : R) :
  in_domain Qs -> in_domain Qw ->
  in_domain D50 -> in_domain D50' -> in_domain S -> in_domain S' ->
  (D50 < D50' ->
   (Balance.calculateRatio (Fin Qs) (Fin D50) (Fin Qw) (Fin S)
    < Balance.calculateRatio (Fin Qs) (Fin D50') (Fin Qw) (Fin S))%js = true)
  /\
  (S < S' ->
   (Balance.calculateRatio (Fin Qs) (Fin D50) (Fin Qw) (Fin S')
    < Balance.calculateRatio (Fin Qs) (Fin D50) (Fin Qw) (Fin S))%js = true).
Proof.
  unfold in_domain. intros HQs HQw HD50 HD50' HS HS'.
  pose proof (mapD50R_pos D50) as Hm.
  pose proof (mapSlopeR_pos S ltac:(lra)) as Hs.
  split; intros Hlt.
  - rewrite !calculateRatio_pos_water by lra. apply Rltb_true.
    apply ratio_lt_supply; [apply Rmult_lt_0_compat; lra | ].
    apply Rmult_lt_compat_l; [lra | apply mapD50R_lt, Hlt].
  - rewrite !calculateRatio_pos_water by lra. apply Rltb_true.
    apply ratio_lt_water.
    + apply Rmult_lt_0_compat; lra.
    + apply Rmult_lt_0_compat; lra.
    + apply Rmult_lt_compat_l; [lra | unfold mapSlopeR; lra].
Qed.

Lemma calculateRatio_grain_slope_witness :
  (in_domain 50 /\ in_domain 30 /\ in_domain 60 /\ in_domain 20 /\
   in_domain 70) /\
  (Balance.calculateRatio (Fin 50) (Fin 30) (Fin 50) (Fin 20)
   < Balance.calculateRatio (Fin 50) (Fin 60) (Fin 50) (Fin 20))%js = true /\
  (Balance.calculateRatio (Fin 50) (Fin 30) (Fin 50) (Fin 70)
   < Balance.calculateRatio (Fin 50) (Fin 30) (Fin 50) (Fin 20))%js = true.
Proof.
  assert (H50 : in_domain 50) by (unfold in_domain; lra).
  assert (H30 : in_domain 30) by (unfold in_domain; lra).
  assert (H60 : in_domain 60) by (unfold in_domain; lra).
  assert (H20 : in_domain 20) by (unfold in_domain; lra).
  assert (H70 : in_domain 70) by (unfold in_domain; lra).
  split; [exact (conj H50 (conj H30 (conj H60 (conj H20 H70)))) | ].
  destruct (calculateRatio_grain_slope 50 30 60 50 20 70
              H50 H50 H30 H60 H20 H70) as [Hg Hs].
  split; [apply Hg | apply Hs]; lra.
Defined.

(** X4. On the sliders the ratio depends on [Qs] and [Qw] only through their
    quotient: when both are scaled by the same factor and stay in [1,100],
    the ratio changes by no more than rounding (one part in 10^9).  With the
    grain size and the slope at their midpoint, equal supply and discharge
    are in equilibrium wherever the two sliders stand. *)
Theorem calculateRatio_scale_invariant (k Qs D50 Qw S : R) :
  in_domain Qs -> in_domain D50 -> in_domain Qw -> in_domain S ->
  in_domain (k * Qs) -> in_domain (k * Qw) ->
  (exists a b : R,
     Balance.calculateRatio (Fin k * Fin Qs)%js (Fin D50) (Fin k * Fin Qw)%js
       (Fin S) = Fin a /\
     Balance.calculateRatio (Fin Qs) (Fin D50) (Fin Qw) (Fin S) = Fin b /\
     0 < b /\ Rabs (a - b) <= b / 10 ^ 9) /\
  Balance.getState (Balance.calculateRatio (Fin Qs) (Fin 50) (Fin Qs) (Fin 50))
  = "equilibrium".
Proof.
  unfold in_domain. intros HQs HD50 HQw HS HkQs HkQw.
  pose proof (mapD50R_pos D50) as Hm.
  pose proof (mapSlopeR_pos S ltac:(lra)) as Hs.
  split.
  - cbn [JS.mul]. rewrite !calculateRatio_pos_water by lra.
    do 2 eexists. split; [reflexivity | split; [reflexivity | ]].
    assert (Hk : 0 < k) by nra.
    assert (Hb : 0 < Qs * mapD50R D50 / (Qw * mapSlopeR S)).
    { apply Rdiv_lt_0_compat; apply Rmult_lt_0_compat; lra. }
    split; [exact Hb | ].
    replace (k * Qs * mapD50R D50 / (k * Qw * mapSlopeR S))
      with (Qs * mapD50R D50 / (Qw * mapSlopeR S))
      by (field; repeat split; lra).
    replace (Qs * mapD50R D50 / (Qw * mapSlopeR S)
             - Qs * mapD50R D50 / (Qw * mapSlopeR S)) with 0 by lra.
    rewrite Rabs_R0. apply Rlt_le, Rdiv_lt_0_compat; [exact Hb | lra].
  - rewrite calculateRatio_pos_water by lra.
    assert (Hs50 : mapSlopeR 50 = 3.053) by (unfold mapSlopeR; lra).
    apply getState_equilibrium.
    replace (Qs * mapD50R 50 / (Qs * mapSlopeR 50)) with (mapD50R 50 / 3.053)
      by (rewrite Hs50; field; lra).
    pose proof mapD50R_50. lra.
Qed.

Lemma calculateRatio_scale_invariant_witness :
  (in_domain 30 /\ in_domain 40 /\ in_domain 10 /\ in_domain 70 /\
   in_domain (3 * 30) /\ in_domain (3 * 10)) /\
  (exists a b : R,
     Balance.calculateRatio (Fin 3 * Fin 30)%js (Fin 40) (Fin 3 * Fin 10)%js
       (Fin 70) = Fin a /\
     Balance.calculateRatio (Fin 30) (Fin 40) (Fin 10) (Fin 70) = Fin b /\
     0 < b /\ Rabs (a - b) <= b / 10 ^ 9) /\
  Balance.getState (Balance.calculateRatio (Fin 30) (Fin 50) (Fin 30) (Fin 50))
  = "equilibrium".
Proof.
  assert (H30 : in_domain 30) by (unfold in_domain; lra).
  assert (H40 : in_domain 40) by (unfold in_domain; lra).
  assert (H10 : in_domain 10) by (unfold in_domain; lra).
  assert (H70 : in_domain 70) by (unfold in_domain; lra).
  assert (H90 : in_domain (3 * 30)) by (unfold in_domain; lra).
  assert (H3 : in_domain (3 * 10)) by (unfold in_domain; lra).
  split; [exact (conj H30 (conj H40 (conj H10 (conj H70 (conj H90 H3))))) | ].
  exact (calculateRatio_scale_invariant 3 30 40 10 70 H30 H40 H10 H70 H90 H3).
Defined.

(** ** The imbalance index and the regime *)

Lemma clampN_bounds (lo hi : R) (x : number) :
  lo <= hi -> lo <= clampN lo hi x <= hi.
Proof.
  intros H. destruct x; cbn; try lra. apply clampR_bounds, H.
Qed.

Lemma clampR_incr (lo hi x y : R) : x <= y -> clampR lo hi x <= clampR lo hi y.
Proof.
  intros H. unfold clampR, Rmin.
  destruct (Rle_dec hi x), (Rle_dec hi y); unfold Rmax;
    repeat destruct (Rle_dec _ _); lra.
Qed.

Lemma clampN_incr (lo hi : R) (a b : number) :
  lo <= hi -> (a <= b)%js = true -> clampN lo hi a <= clampN lo hi b.
Proof.
  intros Hlh H. destruct a as [x | | | ], b as [y | | | ]; cbn in *;
    try discriminate; try lra;
    try (pose proof (clampR_bounds lo hi x Hlh); lra);
    try (pose proof (clampR_bounds lo hi y Hlh); lra).
  apply clampR_incr. apply Rleb_spec, H.
Qed.

Lemma getImbalanceIndex_clampN (ratio : number) :
  ratio <> NaN ->
  Balance.getImbalanceIndex ratio = Fin (log10R (clampN 0.01 100 ratio)).
Proof.
  intros Hn. destruct ratio as [r | | | ].
  - apply getImbalanceIndex_fin.
  - unfold Balance.getImbalanceIndex.
    replace (Math.min (Fin 100) PosInf) with (Fin 100) by reflexivity.
    rewrite max_fin. replace (Rmax 0.01 100) with 100
      by (unfold Rmax; destruct (Rle_dec _ _); lra).
    rewrite log10_fin by lra. reflexivity.
  - unfold Balance.getImbalanceIndex.
    replace (Math.min (Fin 100) NegInf) with NegInf by reflexivity.
    replace (Math.max (Fin 0.01) NegInf) with (Fin 0.01) by reflexivity.
    rewrite log10_fin by lra. reflexivity.
  - contradiction.
Qed.

Lemma log10R_clamp_bounds (c : R) :
  0.01 <= c <= 100 -> -2 <= log10R c <= 2.
Proof.
  intros [H1 H2]. rewrite <- log10R_001, <- log10R_100.
  split; apply log10R_incr; lra.
Qed.

(** X5. The imbalance index of any ratio other than NaN is a finite number in
    [-2, 2], and it does not decrease when the ratio grows; the index of
    NaN is NaN. *)
Theorem getImbalanceIndex_bounded_monotone :
  Balance.getImbalanceIndex NaN = NaN /\
  (forall ratio : number,
     ratio <> NaN ->
     exists i, Balance.getImbalanceIndex ratio = Fin i /\ -2 <= i <= 2) /\
  (forall a b : number,
     (a <= b)%js = true ->
     (Balance.getImbalanceIndex a <= Balance.getImbalanceIndex b)%js = true).
Proof.
  split; [reflexivity | split].
  - intros ratio Hn. rewrite getImbalanceIndex_clampN by assumption.
    eexists. split; [reflexivity | ].
    apply log10R_clamp_bounds, clampN_bounds. lra.
  - intros a b Hab.
    assert (Ha : a <> NaN) by (intros ->; discriminate).
    assert (Hb : b <> NaN) by (intros ->; destruct a; discriminate).
    rewrite !getImbalanceIndex_clampN by assumption.
    apply Rleb_true, log10R_incr.
    + pose proof (clampN_bounds 0.01 100 a). lra.
    + apply clampN_incr; [lra | assumption].
Qed.

Lemma getImbalanceIndex_bounded_monotone_witness :
  (Fin 0.002 <= PosInf)%js = true /\
  (Balance.getImbalanceIndex (Fin 0.002)
   <= Balance.getImbalanceIndex PosInf)%js = true.
Proof.
  assert (H : (Fin 0.002 <= PosInf)%js = true) by reflexivity.
  split; [exact H | ].
  apply getImbalanceIndex_bounded_monotone, H.
Defined.

Lemma dead_zone_low : 0.891 < Rpower 10 (-0.05) < 0.892.
Proof.
  split.
  - apply (Rpower10_gt 0.891 (-0.05) 20 0 1); [simpl; lra | lra].
  - apply (Rpower10_lt 0.892 (-0.05) 20 0 1); [lra | simpl; lra | lra].
Qed.

Lemma dead_zone_high : 1.122 < Rpower 10 0.05 < 1.123.
Proof.
  split.
  - apply (Rpower10_gt 1.122 0.05 20 1 0); [simpl; lra | lra].
  - apply (Rpower10_lt 1.123 0.05 20 1 0); [lra | simpl; lra | lra].
Qed.

Lemma log10R_lt_iff (x c : R) : 0 < x -> (log10R x < c <-> x < Rpower 10 c).
Proof.
  intros Hx. split; intros H.
  - destruct (Rlt_le_dec x (Rpower 10 c)) as [Hlt | Hle]; [assumption | ].
    exfalso. apply (log10R_incr _ _ (Rpower10_pos c)) in Hle.
    rewrite log10R_Rpower in Hle. lra.
  - rewrite <- (log10R_Rpower c). apply log10R_lt; assumption.
Qed.

Lemma log10R_gt_iff (x c : R) : 0 < x -> (c < log10R x <-> Rpower 10 c < x).
Proof.
  intros Hx. split; intros H.
  - destruct (Rlt_le_dec (Rpower 10 c) x) as [Hlt | Hle]; [assumption | ].
    exfalso. apply (log10R_incr _ _ Hx) in Hle.
    rewrite log10R_Rpower in Hle. lra.
  - rewrite <- (log10R_Rpower c). apply log10R_lt; [apply Rpower10_pos | assumption].
Qed.

(** The regime of a ratio other than NaN, read off its clamp. *)
Lemma getState_clampN (ratio : number) :
  ratio <> NaN ->
  Balance.getState ratio =
  if Rltb (clampN 0.01 100 ratio) (Rpower 10 (-0.05)) then "degradation"
  else if Rltb (Rpower 10 0.05) (clampN 0.01 100 ratio) then "aggradation"
       else "equilibrium".
Proof.
  intros Hn. unfold Balance.getState.
  rewrite getImbalanceIndex_clampN by assumption. unfold JS.gt, JS.lt.
  pose proof (clampN_bounds 0.01 100 ratio ltac:(lra)) as Hc.
  set (c := clampN 0.01 100 ratio) in *.
  assert (Hpos : 0 < c) by lra.
  pose proof (log10R_lt_iff c (-0.05) Hpos) as Hlo.
  pose proof (log10R_gt_iff c 0.05 Hpos) as Hhi.
  unfold Rltb.
  destruct (Rlt_dec (log10R c) (-0.05)) as [H1 | H1];
    destruct (Rlt_dec c (Rpower 10 (-0.05))) as [H2 | H2];
    try reflexivity; try (exfalso; tauto).
  destruct (Rlt_dec 0.05 (log10R c)) as [H3 | H3];
    destruct (Rlt_dec (Rpower 10 0.05) c) as [H4 | H4];
    try reflexivity; exfalso; tauto.
Qed.

(** X6. The regime in terms of the ratio itself: a finite ratio is in
    degradation exactly below [10^-0.05] (between 0.891 and 0.892), in
    aggradation exactly above [10^0.05] (between 1.122 and 1.123), and in
    equilibrium in between; a NaN ratio is reported as equilibrium. *)
Theorem getState_thresholds :
  (forall r : R,
     (Balance.getState (Fin r) = "degradation" <-> r < Rpower 10 (-0.05)) /\
     (Balance.getState (Fin r) = "aggradation" <-> Rpower 10 0.05 < r) /\
     (Balance.getState (Fin r) = "equilibrium" <->
      Rpower 10 (-0.05) <= r <= Rpower 10 0.05)) /\
  0.891 < Rpower 10 (-0.05) < 0.892 /\
  1.122 < Rpower 10 0.05 < 1.123 /\
  Balance.getState NaN = "equilibrium".
Proof.
  pose proof dead_zone_low as Hlo. pose proof dead_zone_high as Hhi.
  split; [ | split; [exact Hlo | split; [exact Hhi | reflexivity]]].
  intros r. rewrite getState_clampN by discriminate. cbn [clampN].
  unfold Rltb, clampR, Rmax, Rmin.
  destruct (Rle_dec 100 r); destruct (Rle_dec 0.01 _);
    destruct (Rlt_dec _ (Rpower 10 (-0.05)));
    try destruct (Rlt_dec (Rpower 10 0.05) _);
    repeat split; intros; try discriminate; try reflexivity; try lra.
Qed.

(** ** The tilt angle and the regime *)

Lemma tilt_log10R (c : R) : - ln c * (30 / ln 10) = -30 * log10R c.
Proof. unfold log10R. field. apply Rgt_not_eq, ln10_pos. Qed.

Lemma calculateTiltAngle_clampN (ratio : number) :
  ratio <> NaN ->
  Balance.calculateTiltAngle ratio = Fin (-30 * log10R (clampN 0.1 10 ratio)).
Proof.
  intros Hn. rewrite <- tilt_log10R. destruct ratio as [r | | | ].
  - apply calculateTiltAngle_fin.
  - apply calculateTiltAngle_PosInf.
  - apply calculateTiltAngle_NegInf.
  - contradiction.
Qed.

Lemma log10R_neg (x : R) : 0 < x -> x < 1 -> log10R x < 0.
Proof. intros H0 H1. rewrite <- log10R_1. apply log10R_lt; assumption. Qed.

Lemma log10R_pos (x : R) : 1 < x -> 0 < log10R x.
Proof. intros H1. rewrite <- log10R_1. apply log10R_lt; lra. Qed.

(** The two clamps of one ratio: the narrow one is the narrow clamp of the
    wide one. *)
Lemma clampN_narrow (x : number) :
  clampN 0.1 10 x = clampR 0.1 10 (clampN 0.01 100 x).
Proof.
  destruct x as [r | | | ]; cbn [clampN]; unfold clampR, Rmin.
  - destruct (Rle_dec 10 r), (Rle_dec 100 r); unfold Rmax;
      repeat destruct (Rle_dec _ _); lra.
  - unfold Rmax; repeat destruct (Rle_dec _ _); lra.
  - unfold Rmax; repeat destruct (Rle_dec _ _); lra.
  - unfold Rmax; repeat destruct (Rle_dec _ _); lra.
Qed.

(** X7. The beam tilts the way the regime says: for every ratio other than NaN
    the angle is negative in aggradation, positive in degradation, and within
    1.5 degrees of level in equilibrium. *)
Theorem regime_tilt_consistent (ratio : number) :
  ratio <> NaN ->
  exists a : R,
    Balance.calculateTiltAngle ratio = Fin a /\
    (Balance.getState ratio = "aggradation" -> a < 0) /\
    (Balance.getState ratio = "degradation" -> 0 < a) /\
    (Balance.getState ratio = "equilibrium" -> -1.5 <= a <= 1.5).
Proof.
  intros Hn. rewrite calculateTiltAngle_clampN, getState_clampN by assumption.
  eexists. split; [reflexivity | ].
  rewrite clampN_narrow.
  pose proof (clampN_bounds 0.01 100 ratio ltac:(lra)) as Hc.
  set (c := clampN 0.01 100 ratio) in *.
  pose proof dead_zone_low as Hlo. pose proof dead_zone_high as Hhi.
  pose proof (clampR_bounds 0.1 10 c ltac:(lra)) as Hc'.
  unfold Rltb.
  destruct (Rlt_dec c (Rpower 10 (-0.05))) as [H1 | H1];
    [ | destruct (Rlt_dec (Rpower 10 0.05) c) as [H2 | H2]];
    (split; [ | split]); intros Hs; try discriminate.
  - assert (clampR 0.1 10 c < 1).
    { unfold clampR, Rmax, Rmin.
      destruct (Rle_dec 10 c); destruct (Rle_dec 0.1 _); lra. }
    pose proof (log10R_neg (clampR 0.1 10 c)). lra.
  - assert (1 < clampR 0.1 10 c).
    { unfold clampR, Rmax, Rmin.
      destruct (Rle_dec 10 c); destruct (Rle_dec 0.1 _); lra. }
    pose proof (log10R_pos (clampR 0.1 10 c)). lra.
  - rewrite clampR_id by lra.
    assert (Hpos : 0 < c) by lra.
    pose proof (log10R_gt_iff c 0.05 Hpos).
    pose proof (log10R_lt_iff c (-0.05) Hpos).
    destruct (Rle_lt_dec (log10R c) 0.05); [ | exfalso; tauto].
    destruct (Rle_lt_dec (-0.05) (log10R c)); [lra | exfalso; tauto].
Qed.

Lemma regime_tilt_consistent_witness :
  PosInf <> NaN /\
  exists a : R,
    Balance.calculateTiltAngle PosInf = Fin a /\
    (Balance.getState PosInf = "aggradation" -> a < 0) /\
    (Balance.getState PosInf = "degradation" -> 0 < a) /\
    (Balance.getState PosInf = "equilibrium" -> -1.5 <= a <= 1.5).
Proof.
  assert (H : PosInf <> NaN) by discriminate.
  split; [exact H | apply (regime_tilt_consistent PosInf H)].
Defined.

(** X8. The tilt angle never increases when the ratio grows, and inverting a
    positive ratio flips it: the angles of [r] and of [1/r] cancel up to
    rounding (their sum is within 1e-9 of 0). *)
Theorem calculateTiltAngle_antitone_odd :
  (forall a b : number,
     (a <= b)%js = true ->
     (Balance.calculateTiltAngle b <= Balance.calculateTiltAngle a)%js = true) /\
  (forall r : R,
     0 < r ->
     exists t t' : R,
       Balance.calculateTiltAngle (Fin r) = Fin t /\
       Balance.calculateTiltAngle (Fin 1 / Fin r)%js = Fin t' /\
       Rabs (t + t') <= 1 / 10 ^ 9).
Proof.
  split.
  - intros a b Hab.
    assert (Ha : a <> NaN) by (intros ->; discriminate).
    assert (Hb : b <> NaN) by (intros ->; destruct a; discriminate).
    rewrite !calculateTiltAngle_clampN by assumption.
    apply Rleb_true.
    pose proof (clampN_bounds 0.1 10 a ltac:(lra)).
    pose proof (clampN_incr 0.1 10 a b ltac:(lra) Hab).
    pose proof (log10R_incr (clampN 0.1 10 a) (clampN 0.1 10 b)). lra.
  - intros r Hr. unfold JS.div. rewrite Reqb_false by lra.
    rewrite !calculateTiltAngle_clampN by discriminate.
    cbn [clampN]. do 2 eexists.
    split; [reflexivity | split; [reflexivity | ]].
    replace (1 / r) with (/ r) by lra.
    assert (Hsum : -30 * log10R (clampR 0.1 10 r)
                   + -30 * log10R (clampR 0.1 10 (/ r)) = 0).
    { destruct (Rle_lt_dec r 0.1) as [Hlo | Hlo];
        [ | destruct (Rle_lt_dec 10 r) as [Hhi | Hhi]].
      + assert (10 <= / r).
        { replace 10 with (/ 0.1) by lra. apply Rinv_le_contravar; lra. }
        rewrite (clampR_low 0.1 10 r), (clampR_high 0.1 10 (/ r)) by lra.
        replace 0.1 with (/ 10) by lra. rewrite log10R_inv by lra. lra.
      + assert (/ r <= 0.1).
        { replace 0.1 with (/ 10) by lra. apply Rinv_le_contravar; lra. }
        rewrite (clampR_high 0.1 10 r), (clampR_low 0.1 10 (/ r)) by lra.
        replace 0.1 with (/ 10) by lra. rewrite log10R_inv by lra. lra.
      + assert (0.1 <= / r <= 10).
        { split.
          - replace 0.1 with (/ 10) by lra. apply Rinv_le_contravar; lra.
          - replace 10 with (/ 0.1) by lra. apply Rinv_le_contravar; lra. }
        rewrite !clampR_id by lra. rewrite log10R_inv by lra. lra. }
    rewrite Hsum, Rabs_R0. lra.
Qed.

Lemma calculateTiltAngle_antitone_odd_witness :
  ((Fin 2 <= Fin 5)%js = true /\ 0 < 20) /\
  (Balance.calculateTiltAngle (Fin 5) <= Balance.calculateTiltAngle (Fin 2))%js
  = true /\
  exists t t' : R,
    Balance.calculateTiltAngle (Fin 20) = Fin t /\
    Balance.calculateTiltAngle (Fin 1 / Fin 20)%js = Fin t' /\
    Rabs (t + t') <= 1 / 10 ^ 9.
Proof.
  assert (H1 : (Fin 2 <= Fin 5)%js = true) by (apply Rleb_true; lra).
  assert (H2 : 0 < 20) by lra.
  split; [exact (conj H1 H2) | ].
  destruct calculateTiltAngle_antitone_odd as [Hanti Hodd].
  split; [exact (Hanti (Fin 2) (Fin 5) H1) | exact (Hodd 20 H2)].
Defined.

(** ** The list of active processes *)

Lemma gt_weaken (x : number) (a b : R) :
  b <= a -> (x > Fin a)%js = true -> (x > Fin b)%js = true.
Proof.
  intros Hab. destruct x as [r | | | ]; cbn; try discriminate; try reflexivity.
  intros H%Rltb_spec. apply Rltb_true. lra.
Qed.

Ltac solve_names :=
  cbn; repeat split;
  try (repeat constructor; cbn; intuition discriminate);
  try lia; try reflexivity;
  try (intros; discriminate);
  try (cbn; intuition (try discriminate; auto)).

(** X9. The names listed are pairwise distinct and between one and four;
    'Knickpoint migration' is listed only together with 'Bank erosion' and
    'Avulsion risk' only together with 'Channel widening'; a degradation list
    starts with 'Bed incision', an aggradation list starts with 'Bar
    formation' and ends with 'Overbank deposition', and an equilibrium list
    is exactly 'Sediment transport balance' then 'Dynamic equilibrium',
    whatever the discharge and the slope. *)
Theorem processes_structure (ratio Qw S : number) :
  let names := map name (Balance.getActiveProcesses ratio Qw S) in
  NoDup names /\
  (1 <= length names <= 4)%nat /\
  (In "Knickpoint migration" names -> In "Bank erosion" names) /\
  (In "Avulsion risk" names -> In "Channel widening" names) /\
  (Balance.getState ratio = "degradation" ->
   hd_error names = Some "Bed incision") /\
  (Balance.getState ratio = "aggradation" ->
   hd_error names = Some "Bar formation" /\
   last names "" = "Overbank deposition") /\
  (Balance.getState ratio = "equilibrium" ->
   names = ["Sediment transport balance"; "Dynamic equilibrium"]).
Proof.
  cbv zeta. unfold Balance.getActiveProcesses.
  destruct (getState_cases ratio) as [E | [E | E]]; rewrite E;
    cbn [String.eqb Ascii.eqb Bool.eqb].
  - destruct (Balance.calculateStreamPower Qw S > Fin 0.5)%js eqn:H5.
    + rewrite (gt_weaken _ 0.5 0.3 ltac:(lra) H5).
      destruct (ratio < Fin 0.5)%js; solve_names.
    + destruct (Balance.calculateStreamPower Qw S > Fin 0.3)%js;
        destruct (ratio < Fin 0.5)%js; solve_names.
  - destruct (ratio > Fin 2)%js eqn:H2.
    + rewrite (gt_weaken _ 2 1.5 ltac:(lra) H2). solve_names.
    + destruct (ratio > Fin 1.5)%js; solve_names.
  - solve_names.
Qed.

Lemma getState_PosInf : Balance.getState PosInf = "aggradation".
Proof.
  rewrite getState_clampN by discriminate. cbn [clampN].
  pose proof dead_zone_low. pose proof dead_zone_high.
  rewrite Rltb_false, Rltb_true by lra. reflexivity.
Qed.

Lemma processes_structure_witness :
  Balance.getState PosInf = "aggradation" /\
  hd_error (map name (Balance.getActiveProcesses PosInf (Fin 50) (Fin 50)))
  = Some "Bar formation" /\
  last (map name (Balance.getActiveProcesses PosInf (Fin 50) (Fin 50))) ""
  = "Overbank deposition".
Proof.
  split; [exact getState_PosInf | ].
  destruct (processes_structure PosInf (Fin 50) (Fin 50))
    as (_ & _ & _ & _ & _ & Hagg & _).
  exact (Hagg getState_PosInf).
Defined.

(** ** The channel pattern *)

Lemma aggradationFactorN_bounds (ratio : number) :
  0 <= aggradationFactorN ratio <= 0.3.
Proof.
  destruct ratio as [r | | | ]; cbn; try lra.
  unfold Rltb, Rmin. destruct (Rlt_dec 1 r); [destruct (Rle_dec _ _) | ]; lra.
Qed.

Lemma aggradationFactorN_incr (a b : number) :
  (a <= b)%js = true -> aggradationFactorN a <= aggradationFactorN b.
Proof.
  intros H. pose proof (aggradationFactorN_bounds a).
  pose proof (aggradationFactorN_bounds b).
  destruct a as [x | | | ], b as [y | | | ]; cbn in *;
    try discriminate; try lra.
  apply Rleb_spec in H. unfold Rltb, Rmin.
  destruct (Rlt_dec 1 x), (Rlt_dec 1 y);
    repeat destruct (Rle_dec _ _); lra.
Qed.

(** The braiding index is finite whatever the ratio. *)
Lemma braidingIndex_any_ratio (Qs D50 : R) (ratio : number) :
  Balance.braidingIndex (Fin Qs) (Fin D50) ratio =
  Fin (Qs / 100 * 0.35 + D50 / 100 * 0.25 + aggradationFactorN ratio).
Proof.
  destruct ratio as [r | | | ].
  - rewrite braidingIndex_fin. reflexivity.
  - unfold Balance.braidingIndex, JS.div. rewrite (Reqb_false 100 0) by lra.
    replace (PosInf > Fin 1)%js with true by reflexivity.
    replace ((PosInf - Fin 1) * Fin 0.3)%js with PosInf
      by (cbn; unfold JS.scaled_inf; rewrite Rltb_true by lra; reflexivity).
    reflexivity.
  - unfold Balance.braidingIndex, JS.div. rewrite (Reqb_false 100 0) by lra.
    reflexivity.
  - unfold Balance.braidingIndex, JS.div. rewrite (Reqb_false 100 0) by lra.
    reflexivity.
Qed.

Lemma getChannelPattern_any_ratio (Qs D50 Qw : R) (S ratio : number) :
  Balance.getChannelPattern (Fin Qs) (Fin D50) (Fin Qw) S ratio =
  if Rltb 0.5 (Qs / 100 * 0.35 + D50 / 100 * 0.25 + aggradationFactorN ratio)
  then "braided"
  else if Rltb (Qw / 100) 0.15 then "straight" else "meandering".
Proof.
  rewrite getChannelPattern_braidingIndex, braidingIndex_any_ratio.
  unfold JS.div. rewrite (Reqb_false 100 0) by lra. reflexivity.
Qed.

(** X10. Braiding is monotone in its drivers: a pattern that is 'braided' stays
    'braided' when the sediment load, the grain size and the ratio do not
    decrease, whatever happens to the discharge and the slope. *)
Theorem braided_monotone
  (Qs Qs' D50 D50' Qw Qw' : R) (S S' ratio ratio' : number) :
  Qs <= Qs' -> D50 <= D50' -> (ratio <= ratio')%js = true ->
  Balance.getChannelPattern (Fin Qs) (Fin D50) (Fin Qw) S ratio = "braided" ->
  Balance.getChannelPattern (Fin Qs') (Fin D50') (Fin Qw') S' ratio' = "braided".
Proof.
  intros HQs HD50 Hr. rewrite !getChannelPattern_any_ratio.
  pose proof (aggradationFactorN_incr ratio ratio' Hr) as Hagg.
  unfold Rltb at 1.
  destruct (Rlt_dec 0.5 _) as [Hb | Hb].
  - intros _. rewrite Rltb_true by lra. reflexivity.
  - destruct (Rltb (Qw / 100) 0.15); discriminate.
Qed.

Lemma braided_example :
  Balance.getChannelPattern (Fin 90) (Fin 80) (Fin 50) (Fin 50) (Fin 1)
  = "braided".
Proof.
  rewrite getChannelPattern_any_ratio. cbn [aggradationFactorN].
  rewrite (Rltb_false 1 1) by lra. rewrite Rltb_true by lra. reflexivity.
Qed.

Lemma braided_monotone_witness :
  (90 <= 95 /\ 80 <= 80 /\ (Fin 1 <= PosInf)%js = true /\
   Balance.getChannelPattern (Fin 90) (Fin 80) (Fin 50) (Fin 50) (Fin 1)
   = "braided") /\
  Balance.getChannelPattern (Fin 95) (Fin 80) (Fin 10) (Fin 2) PosInf
  = "braided".
Proof.
  assert (H1 : 90 <= 95) by lra. assert (H2 : 80 <= 80) by lra.
  assert (H3 : (Fin 1 <= PosInf)%js = true) by reflexivity.
  split; [repeat split; try assumption; exact braided_example | ].
  exact (braided_monotone 90 95 80 80 50 10 (Fin 50) (Fin 2) (Fin 1) PosInf
           H1 H2 H3 braided_example).
Defined.

(** X11. The pattern in terms of the parameters, for finite [Qs], [D50] and [Qw]
    and any slope and ratio (NaN and the infinities included): it is
    'braided' whenever [7 Qs + 5 D50 > 1000] and never when
    [7 Qs + 5 D50 <= 400]; for a ratio that is not above 1 it is 'braided'
    exactly when [7 Qs + 5 D50 > 1000]; it is 'straight' only for [Qw < 15]
    and 'meandering' only for [Qw >= 15]. *)
Theorem pattern_thresholds (Qs D50 Qw : R) (S ratio : number) :
  let pattern :=
    Balance.getChannelPattern (Fin Qs) (Fin D50) (Fin Qw) S ratio in
  (pattern = "braided" \/ pattern = "straight" \/ pattern = "meandering") /\
  (1000 < 7 * Qs + 5 * D50 -> pattern = "braided") /\
  (7 * Qs + 5 * D50 <= 400 -> pattern <> "braided") /\
  ((ratio > Fin 1)%js = false ->
   (pattern = "braided" <-> 1000 < 7 * Qs + 5 * D50)) /\
  (pattern = "straight" -> Qw < 15) /\
  (pattern = "meandering" -> 15 <= Qw).
Proof.
  cbv zeta. rewrite getChannelPattern_any_ratio.
  pose proof (aggradationFactorN_bounds ratio) as Hagg.
  assert (Hzero : (ratio > Fin 1)%js = false -> aggradationFactorN ratio = 0).
  { destruct ratio as [r | | | ]; cbn; try reflexivity; try discriminate.
    intros ->. reflexivity. }
  unfold Rltb.
  destruct (Rlt_dec 0.5 _) as [Hb | Hb];
    [ | destruct (Rlt_dec (Qw / 100) 0.15) as [Hq | Hq]].
  - split; [left; reflexivity | ].
    split; [reflexivity | ].
    split; [intros; lra | ].
    split; [intros Hr; rewrite (Hzero Hr) in Hb; split; intros; [lra | reflexivity] | ].
    split; discriminate.
  - split; [right; left; reflexivity | ].
    split; [intros; lra | ].
    split; [discriminate | ].
    split; [intros Hr; rewrite (Hzero Hr) in Hb; split; intros; [discriminate | lra] | ].
    split; [intros; lra | discriminate].
  - split; [right; right; reflexivity | ].
    split; [intros; lra | ].
    split; [discriminate | ].
    split; [intros Hr; rewrite (Hzero Hr) in Hb; split; intros; [discriminate | lra] | ].
    split; [discriminate | intros; lra].
Qed.

Lemma pattern_thresholds_witness :
  1000 < 7 * 100 + 5 * 70 /\
  Balance.getChannelPattern (Fin 100) (Fin 70) (Fin 5) NaN NaN = "braided".
Proof.
  assert (H : 1000 < 7 * 100 + 5 * 70) by lra.
  split; [exact H | ].
  destruct (pattern_thresholds 100 70 5 NaN NaN) as (_ & Hb & _).
  exact (Hb H).
Defined.

(** ** The seed *)

Lemma Zmax_fin (a b : Z) :
  Math.max (Fin (IZR a)) (Fin (IZR b)) = Fin (IZR (Z.max a b)).
Proof.
  rewrite max_fin. f_equal. unfold Rmax.
  destruct (Rle_dec (IZR a) (IZR b)) as [H | H].
  - apply le_IZR in H. rewrite Z.max_r by assumption. reflexivity.
  - rewrite Z.max_l; [reflexivity | ].
    destruct (Z.le_ge_cases b a) as [Hle | Hle]; [assumption | ].
    exfalso. apply H, IZR_le, Hle.
Qed.

Lemma Zmin_fin (a b : Z) :
  Math.min (Fin (IZR a)) (Fin (IZR b)) = Fin (IZR (Z.min a b)).
Proof.
  rewrite min_fin. f_equal. unfold Rmin.
  destruct (Rle_dec (IZR a) (IZR b)) as [H | H].
  - apply le_IZR in H. rewrite Z.min_l by assumption. reflexivity.
  - rewrite Z.min_r; [reflexivity | ].
    destruct (Z.le_ge_cases b a) as [Hle | Hle]; [assumption | ].
    exfalso. apply H, IZR_le, Hle.
Qed.

(** The key computed from a floored ratio [m >= 0.01]. *)
Lemma ratioKey_floored (m : R) :
  0.01 <= m ->
  Math.max (Fin 0)
    (Math.min (Fin 999)
       (Math.round (Math.log10 (Fin m) * Fin 100 + Fin 500)%js))
  = Fin (IZR (Z.max 0 (Z.min 999 (Zfloor (log10R m * 100 + 500 + 0.5))))).
Proof.
  intros Hm. rewrite log10_fin by lra. cbn [JS.mul JS.add Math.round].
  rewrite (Zmin_fin 999), (Zmax_fin 0). reflexivity.
Qed.

Lemma ratioKey_any (ratio : number) :
  ratio <> NaN ->
  Math.max (Fin 0)
    (Math.min (Fin 999)
       (Math.round
          (Math.log10 (Math.max (Fin 0.01) ratio) * Fin 100 + Fin 500)%js))
  = Fin (IZR (ratioKeyZ ratio)).
Proof.
  intros Hn. destruct ratio as [r | | | ]; cbn [ratioKeyZ].
  - rewrite max_fin. apply ratioKey_floored. unfold Rmax.
    destruct (Rle_dec 0.01 r); lra.
  - replace (Math.max (Fin 0.01) PosInf) with PosInf by reflexivity.
    cbn [Math.log10 JS.mul]. unfold JS.scaled_inf. rewrite Rltb_true by lra.
    cbn [JS.add Math.round].
    replace (Math.min (Fin 999) PosInf) with (Fin 999) by reflexivity.
    rewrite (Zmax_fin 0 999). reflexivity.
  - replace (Math.max (Fin 0.01) NegInf) with (Fin 0.01) by reflexivity.
    apply ratioKey_floored. lra.
  - contradiction.
Qed.

Lemma ratioKeyZ_range (ratio : number) :
  ratio <> NaN -> (300 <= ratioKeyZ ratio <= 999)%Z.
Proof.
  intros Hn.
  assert (Hfl : forall m, 0.01 <= m ->
            (300 <= Z.max 0 (Z.min 999 (Zfloor (log10R m * 100 + 500 + 0.5)))
             <= 999)%Z).
  { intros m Hm.
    assert (Hlog : -2 <= log10R m).
    { rewrite <- log10R_001. apply log10R_incr; lra. }
    assert (300 <= Zfloor (log10R m * 100 + 500 + 0.5))%Z.
    { apply Zfloor_lub. lra. }
    lia. }
  destruct ratio as [r | | | ]; cbn [ratioKeyZ].
  - apply Hfl. unfold Rmax. destruct (Rle_dec 0.01 r); lra.
  - lia.
  - apply Hfl. lra.
  - contradiction.
Qed.

Lemma computeSeed_fin (this : PlanView.state) (Qs D50 Qw S : R)
      (ratio : number) :
  ratio <> NaN ->
  PlanView.computeSeed this (Fin Qs) (Fin D50) (Fin Qw) (Fin S) ratio =
  Fin (((Qs * 1000 + D50) * 1000 + Qw) * 1000 + S
       + IZR (ratioKeyZ ratio) / 1000).
Proof.
  intros Hn. unfold PlanView.computeSeed. rewrite ratioKey_any by assumption.
  unfold JS.div. rewrite Reqb_false by lra. reflexivity.
Qed.

(** C5 as the claim states it fails: for the seed [Infinity] (and likewise
    for NaN) [Math.sin] is NaN, so [pseudoRandom] returns NaN, which is not
    a value in [0,1). *)
Lemma pseudoRandom_infinite_seed :
  PlanView.pseudoRandom (PlanViewDraw.data (initial_view true)) PosInf = NaN /\
  (Fin 0 <= PlanView.pseudoRandom (PlanViewDraw.data (initial_view true)) PosInf)%js
  = false /\
  (PlanView.pseudoRandom (PlanViewDraw.data (initial_view true)) PosInf < Fin 1)%js
  = false.
Proof. repeat split. Qed.

(** In binary64 the fractional part [x - Math.floor(x)] is not always below
    1: for a seed as small as [-1e-25] the sine is the seed itself,
    [x = -1e-21], its floor is -1, and [x + 1] rounds to 1. *)
Lemma pseudoRandom_rounds_to_one :
  Binary64.PlanView.pseudoRandom_of_sine (-1e-25) = 1%float.
Proof. vm_compute. reflexivity. Qed.

(** C5 (amended). [computeSeed] and [pseudoRandom] are functions of their
    arguments alone: two calls with the same arguments return the same value
    whatever the state of the object they are called on.  For parameters
    in [1,100] and a ratio other than NaN, the seed is
    [((Qs * 1000 + D50) * 1000 + Qw) * 1000 + S] plus a thousandth of the
    ratio key; for a finite seed [n] the value of [pseudoRandom] is the
    fractional part of [sin(n) * 10000], a number in [0,1]; for an infinite
    or NaN seed it is NaN. *)
Theorem seed_deterministic :
  (forall (this this' : PlanView.state) (Qs D50 Qw S ratio : number),
     PlanView.computeSeed this Qs D50 Qw S ratio =
     PlanView.computeSeed this' Qs D50 Qw S ratio) /\
  (forall (this this' : PlanView.state) (seed : number),
     PlanView.pseudoRandom this seed = PlanView.pseudoRandom this' seed) /\
  (forall (this : PlanView.state) (Qs D50 Qw S : R) (ratio : number),
     in_domain Qs -> in_domain D50 -> in_domain Qw -> in_domain S ->
     ratio <> NaN ->
     PlanView.computeSeed this (Fin Qs) (Fin D50) (Fin Qw) (Fin S) ratio =
     Fin (((Qs * 1000 + D50) * 1000 + Qw) * 1000 + S
          + IZR (ratioKeyZ ratio) / 1000)) /\
  (forall (this : PlanView.state) (n : R),
     exists u : R,
       PlanView.pseudoRandom this (Fin n) = Fin u /\
       u = Rtrigo_def.sin n * 10000 - IZR (Zfloor (Rtrigo_def.sin n * 10000)) /\
       0 <= u <= 1) /\
  (forall this : PlanView.state,
     PlanView.pseudoRandom this PosInf = NaN /\
     PlanView.pseudoRandom this NegInf = NaN /\
     PlanView.pseudoRandom this NaN = NaN).
Proof.
  split; [ | split; [ | split; [ | split]]].
  - intros this this' Qs D50 Qw S ratio. reflexivity.
  - intros this this' seed. reflexivity.
  - intros this Qs D50 Qw S ratio _ _ _ _ Hn. apply computeSeed_fin, Hn.
  - intros this n. eexists. split; [apply pseudoRandom_fin | ].
    split; [reflexivity | ].
    pose proof (Zfloor_bound (Rtrigo_def.sin n * 10000)). lra.
  - intros this. repeat split.
Qed.

Lemma seed_deterministic_witness :
  (in_domain 60 /\ in_domain 50 /\ in_domain 40 /\ in_domain 30 /\
   Fin 2 <> NaN) /\
  PlanView.computeSeed (PlanViewDraw.data (initial_view true))
    (Fin 60) (Fin 50) (Fin 40) (Fin 30) (Fin 2) =
  Fin (((60 * 1000 + 50) * 1000 + 40) * 1000 + 30
       + IZR (ratioKeyZ (Fin 2)) / 1000).
Proof.
  assert (H60 : in_domain 60) by (unfold in_domain; lra).
  assert (H50 : in_domain 50) by (unfold in_domain; lra).
  assert (H40 : in_domain 40) by (unfold in_domain; lra).
  assert (H30 : in_domain 30) by (unfold in_domain; lra).
  assert (H : Fin 2 <> NaN) by discriminate.
  split; [exact (conj H60 (conj H50 (conj H40 (conj H30 H)))) | ].
  destruct seed_deterministic as (_ & _ & Hseed & _).
  exact (Hseed _ 60 50 40 30 (Fin 2) H60 H50 H40 H30 H).
Defined.



(** X13. For integer slider positions the seed determines the parameter set:
    two settings with the same seed have the same four parameters (and the
    same ratio key), whatever the two ratios. *)
Theorem computeSeed_injective
  (this this' : PlanView.state) (Qs D50 Qw S Qs' D50' Qw' S' : Z)
  (ratio ratio' : number) :
  slider Qs -> slider D50 -> slider Qw -> slider S ->
  slider Qs' -> slider D50' -> slider Qw' -> slider S' ->
  ratio <> NaN -> ratio' <> NaN ->
  PlanView.computeSeed this (Fin (IZR Qs)) (Fin (IZR D50)) (Fin (IZR Qw))
    (Fin (IZR S)) ratio =
  PlanView.computeSeed this' (Fin (IZR Qs')) (Fin (IZR D50')) (Fin (IZR Qw'))
    (Fin (IZR S')) ratio' ->
  Qs = Qs' /\ D50 = D50' /\ Qw = Qw' /\ S = S' /\
  ratioKeyZ ratio = ratioKeyZ ratio'.
Proof.
  unfold slider. intros HQs HD50 HQw HS HQs' HD50' HQw' HS' Hn Hn'.
  rewrite !computeSeed_fin by assumption. intros Heq.
  injection Heq as Heq.
  pose proof (ratioKeyZ_range ratio Hn) as Hk.
  pose proof (ratioKeyZ_range ratio' Hn') as Hk'.
  assert (HZ : (seedDigits Qs D50 Qw S * 1000 + ratioKeyZ ratio =
                seedDigits Qs' D50' Qw' S' * 1000 + ratioKeyZ ratio')%Z).
  { apply eq_IZR. unfold seedDigits.
    repeat (rewrite plus_IZR || rewrite mult_IZR). lra. }
  unfold seedDigits in HZ. lia.
Qed.

Lemma computeSeed_injective_witness :
  (slider 50 /\ Fin 2 <> NaN) /\
  (PlanView.computeSeed
     (PlanView.Build_state "meandering" (Fin 50) (Fin 50) (Fin 50) (Fin 50)
        (Fin 0))
     (Fin (IZR 50)) (Fin (IZR 50)) (Fin (IZR 50)) (Fin (IZR 50)) (Fin 2) =
   PlanView.computeSeed
     (PlanView.Build_state "braided" (Fin 1) (Fin 1) (Fin 1) (Fin 1) (Fin 7))
     (Fin (IZR 50)) (Fin (IZR 50)) (Fin (IZR 50)) (Fin (IZR 50)) (Fin 2)) /\
  (50 = 50)%Z.
Proof.
  assert (Hs : slider 50) by (unfold slider; lia).
  assert (Hn : Fin 2 <> NaN) by discriminate.
  assert (He : PlanView.computeSeed
     (PlanView.Build_state "meandering" (Fin 50) (Fin 50) (Fin 50) (Fin 50)
        (Fin 0))
     (Fin (IZR 50)) (Fin (IZR 50)) (Fin (IZR 50)) (Fin (IZR 50)) (Fin 2) =
   PlanView.computeSeed
     (PlanView.Build_state "braided" (Fin 1) (Fin 1) (Fin 1) (Fin 1) (Fin 7))
     (Fin (IZR 50)) (Fin (IZR 50)) (Fin (IZR 50)) (Fin (IZR 50)) (Fin 2))
    by reflexivity.
  split; [split; assumption | split; [exact He | ]].
  apply (computeSeed_injective _ _ 50 50 50 50 50 50 50 50 (Fin 2) (Fin 2)
           Hs Hs Hs Hs Hs Hs Hs Hs Hn Hn He).
Defined.

(** * The views *)

(** ** Arithmetic on finite numbers *)

Lemma div_fin (a b : R) : b <> 0 -> (Fin a / Fin b)%js = Fin (a / b).
Proof. intros H. unfold JS.div. rewrite Reqb_false by assumption. reflexivity. Qed.

Lemma prR_range (n : R) : 0 <= prR n < 1.
Proof.
  unfold prR. pose proof (Zfloor_bound (Rtrigo_def.sin n * 10000)). lra.
Qed.

Lemma add_fin (a b : R) : (Fin a + Fin b)%js = Fin (a + b).
Proof. reflexivity. Qed.

Lemma sub_fin (a b : R) : (Fin a - Fin b)%js = Fin (a - b).
Proof. reflexivity. Qed.

Lemma mul_fin (a b : R) : (Fin a * Fin b)%js = Fin (a * b).
Proof. reflexivity. Qed.

Lemma neg_fin (a : R) : (- Fin a)%js = Fin (- a).
Proof. reflexivity. Qed.

Lemma floor_fin (a : R) : Math.floor (Fin a) = Fin (IZR (Zfloor a)).
Proof. reflexivity. Qed.

Lemma sin_fin (a : R) : Math.sin (Fin a) = Fin (Rtrigo_def.sin a).
Proof. reflexivity. Qed.

Lemma abs_fin (a : R) : Lang.abs (Fin a) = Fin (Rabs a).
Proof. reflexivity. Qed.

Lemma pseudoRandom_scale (this : ScaleView.view) (n : R) :
  ScaleView.pseudoRandom this (Fin n) = Fin (prR n).
Proof. reflexivity. Qed.

Lemma pseudoRandom_plan (this : PlanView.state) (n : R) :
  PlanView.pseudoRandom this (Fin n) = Fin (prR n).
Proof. reflexivity. Qed.

Create Rewrite HintDb js_fin.
#[export] Hint Rewrite add_fin sub_fin mul_fin neg_fin floor_fin sin_fin abs_fin
  min_fin max_fin pseudoRandom_scale pseudoRandom_plan : js_fin.

(** Evaluate the arithmetic of a term whose leaves are finite numbers. *)
Ltac js_fin :=
  unfold Lang.index;
  repeat (progress (autorewrite with js_fin || rewrite div_fin by lra)).

(** ** The balance scale *)

(** X14. The pans stay on the beam: for a beam of length [L >= 0] and slider
    positions in [1,100], the right pan sits between a quarter and a half of
    [L] from the pivot, further out for a larger slider value, and the left
    pan sits at the mirrored position. *)
Theorem getPanPosition_on_beam (this : ScaleView.view) (L v w : R) :
  ScaleView.beamLength this = Fin L -> 0 <= L ->
  in_domain v -> in_domain w -> v <= w ->
  exists p q : R,
    ScaleView.getPanPosition this (Fin v) false = Fin p /\
    ScaleView.getPanPosition this (Fin w) false = Fin q /\
    ScaleView.getPanPosition this (Fin v) true = Fin (- p) /\
    0.25 * L <= p /\ p <= q /\ q <= 0.5 * L /\
    (v = 1 -> p = 0.25 * L) /\ (w = 100 -> q = 0.5 * L).
Proof.
  unfold in_domain. intros HL HL0 Hv Hw Hvw.
  unfold ScaleView.getPanPosition. rewrite HL. js_fin.
  eexists. eexists. split; [reflexivity | ].
  split; [reflexivity | ]. split; [reflexivity | ].
  repeat split; intros; subst; nra.
Qed.

Lemma getPanPosition_on_beam_witness :
  (0 <= 360 /\ in_domain 1 /\ in_domain 100 /\ 1 <= 100) /\
  exists p q : R,
    ScaleView.getPanPosition (ScaleView.Build_view (Fin 500) (Fin 280) (Fin 360))
      (Fin 1) false = Fin p /\
    ScaleView.getPanPosition (ScaleView.Build_view (Fin 500) (Fin 280) (Fin 360))
      (Fin 100) false = Fin q /\
    ScaleView.getPanPosition (ScaleView.Build_view (Fin 500) (Fin 280) (Fin 360))
      (Fin 1) true = Fin (- p) /\
    0.25 * 360 <= p /\ p <= q /\ q <= 0.5 * 360 /\
    (1 = 1 -> p = 0.25 * 360) /\ (100 = 100 -> q = 0.5 * 360).
Proof.
  assert (H0 : 0 <= 360) by lra.
  assert (H1 : in_domain 1) by (unfold in_domain; lra).
  assert (H2 : in_domain 100) by (unfold in_domain; lra).
  assert (H3 : 1 <= 100) by lra.
  split; [exact (conj H0 (conj H1 (conj H2 H3))) | ].
  exact (getPanPosition_on_beam
           (ScaleView.Build_view (Fin 500) (Fin 280) (Fin 360)) 360 1 100
           eq_refl H0 H1 H2 H3).
Defined.

Lemma updateArrow_angle_clampN (ratio : number) :
  ratio <> NaN ->
  ScaleView.updateArrow_angle ratio = Fin (50 * log10R (clampN 0.1 10 ratio)).
Proof.
  intros Hn. unfold ScaleView.updateArrow_angle.
  assert (Hc : Math.max (Fin 0.1) (Math.min (Fin 10) ratio)
               = Fin (clampN 0.1 10 ratio)).
  { destruct ratio as [r | | | ]; cbn [clampN].
    - rewrite min_fin, max_fin. reflexivity.
    - replace (Math.min (Fin 10) PosInf) with (Fin 10) by reflexivity.
      rewrite max_fin. f_equal. unfold Rmax. destruct (Rle_dec _ _); lra.
    - reflexivity.
    - contradiction. }
  rewrite Hc.
  pose proof (clampN_bounds 0.1 10 ratio ltac:(lra)) as Hb.
  rewrite !log_fin by lra.
  rewrite div_fin by (apply Rgt_not_eq, ln10_pos).
  cbn [JS.mul]. f_equal. unfold log10R. lra.
Qed.

(** The binary64 values of the two angles: at ratio 3 the arrow angle and
    -5/3 of the tilt angle differ in their last digits, and at saturation
    the arrow stops just short of -50 on the low side and at 50 on the
    high side. *)
Lemma updateArrow_angle_binary64 :
  Binary64.ScaleView.updateArrow_angle 3 = 23.856062735983116%float /\
  Binary64.Balance.calculateTiltAngle 3 = (-14.313637641589871)%float /\
  (- (5 / 3) * Binary64.Balance.calculateTiltAngle 3)%float
  = 23.856062735983119%float /\
  Binary64.ScaleView.updateArrow_angle 0.05 = (-49.999999999999986)%float /\
  Binary64.ScaleView.updateArrow_angle 20 = 50%float.
Proof. repeat split; vm_compute; reflexivity. Qed.

(** X15. The arrow and the beam always turn opposite ways and in a fixed
    proportion: for every ratio other than NaN the arrow angle lies in
    [-50, 50], never has the sign of the tilt angle, and is -5/3 of it up
    to rounding (within 1e-9); for NaN both are NaN. *)
Theorem arrow_mirrors_tilt :
  (forall ratio : number,
     ratio <> NaN ->
     exists t a : R,
       Balance.calculateTiltAngle ratio = Fin t /\
       ScaleView.updateArrow_angle ratio = Fin a /\
       -50 <= a <= 50 /\
       t * a <= 0 /\
       Rabs (a + 5 / 3 * t) <= 1 / 10 ^ 9) /\
  Balance.calculateTiltAngle NaN = NaN /\
  ScaleView.updateArrow_angle NaN = NaN.
Proof.
  split; [ | split; reflexivity].
  intros ratio Hn.
  rewrite calculateTiltAngle_clampN, updateArrow_angle_clampN by assumption.
  do 2 eexists. split; [reflexivity | split; [reflexivity | ]].
  pose proof (clampN_bounds 0.1 10 ratio ltac:(lra)) as Hb.
  set (c := clampN 0.1 10 ratio) in *.
  assert (H1 : log10R 0.1 <= log10R c) by (apply log10R_incr; lra).
  assert (H2 : log10R c <= log10R 10) by (apply log10R_incr; lra).
  assert (E1 : log10R 0.1 = -1).
  { unfold log10R. rewrite ln_01. field. apply Rgt_not_eq, ln10_pos. }
  assert (E2 : log10R 10 = 1).
  { unfold log10R. field. apply Rgt_not_eq, ln10_pos. }
  split; [lra | ]. split; [nra | ].
  replace (50 * log10R c + 5 / 3 * (-30 * log10R c)) with 0 by lra.
  rewrite Rabs_R0. lra.
Qed.

Lemma arrow_mirrors_tilt_witness :
  Fin 3 <> NaN /\
  exists t a : R,
    Balance.calculateTiltAngle (Fin 3) = Fin t /\
    ScaleView.updateArrow_angle (Fin 3) = Fin a /\
    -50 <= a <= 50 /\
    t * a <= 0 /\
    Rabs (a + 5 / 3 * t) <= 1 / 10 ^ 9.
Proof.
  assert (H : Fin 3 <> NaN) by discriminate.
  split; [exact H | apply arrow_mirrors_tilt, H].
Defined.

(** ** Sorting *)

Section Sorting.

Context {A : Type} (cmp : A -> A -> number).

Lemma insert_perm (a : A) (l : list A) :
  Permutation (Lang.insert cmp a l) (a :: l).
Proof.
  induction l as [ | e l IH]; cbn [Lang.insert]; [reflexivity | ].
  destruct (cmp a e > Fin 0)%js; [ | reflexivity].
  rewrite IH. apply perm_swap.
Qed.

Lemma sort_perm (l : list A) : Permutation (Lang.sort cmp l) l.
Proof.
  induction l as [ | a l IH]; cbn [Lang.sort]; [reflexivity | ].
  rewrite insert_perm, IH. reflexivity.
Qed.

Variable key : A -> R.

Lemma insert_sorted (a : A) (l : list A) :
  by_key_desc cmp key (a :: l) ->
  StronglySorted (fun u v => key v <= key u) l ->
  StronglySorted (fun u v => key v <= key u) (Lang.insert cmp a l).
Proof.
  intros Hcmp Hs. induction Hs as [ | e l Hs IH Hall]; cbn [Lang.insert].
  - constructor; constructor.
  - rewrite (Hcmp a e) by (cbn; auto). unfold JS.gt, JS.lt, Rltb.
    destruct (Rlt_dec 0 (key e - key a)) as [Hlt | Hge].
    + constructor.
      * apply IH. intros u v Hu Hv. apply Hcmp; cbn in *; intuition.
      * apply (Permutation_Forall (x := a :: l)).
        -- symmetry. apply insert_perm.
        -- constructor; [lra | assumption].
    + constructor; [constructor; assumption | ].
      constructor; [lra | ].
      eapply Forall_impl; [ | exact Hall]. cbn. intros u Hu. lra.
Qed.

Lemma sort_sorted (l : list A) :
  by_key_desc cmp key l ->
  StronglySorted (fun u v => key v <= key u) (Lang.sort cmp l).
Proof.
  induction l as [ | a l IH]; cbn [Lang.sort]; intros Hcmp; [constructor | ].
  apply insert_sorted.
  - intros u v Hu Hv. apply Hcmp.
    + destruct Hu as [-> | Hu]; [left; reflexivity | right].
      apply (Permutation_in _ (sort_perm l) Hu).
    + destruct Hv as [-> | Hv]; [left; reflexivity | right].
      apply (Permutation_in _ (sort_perm l) Hv).
  - apply IH. intros u v Hu Hv. apply Hcmp; right; assumption.
Qed.

End Sorting.

(** ** The rock pile *)

Lemma Zceil_IZR (z : Z) : Zceil (IZR z) = z.
Proof. unfold Zceil. rewrite ZfloorNZ. lia. Qed.

Lemma for_count_floor (x : R) :
  Lang.for_count (Math.floor (Fin x)) = Some (Z.to_nat (Zfloor x)).
Proof. cbn. rewrite Zceil_IZR. reflexivity. Qed.

Lemma Zfloor_between (x : R) (lo hi : Z) :
  IZR lo <= x -> x < IZR hi + 1 -> (lo <= Zfloor x <= hi)%Z.
Proof.
  intros Hlo Hhi. split; [apply Zfloor_lub, Hlo | ].
  pose proof (Zfloor_bound x) as [Hb _].
  assert (IZR (Zfloor x) < IZR (hi + 1)) by (rewrite plus_IZR; lra).
  apply lt_IZR in H. lia.
Qed.

Lemma layer_nonneg (i : nat) : 0 <= IZR (Zfloor (INR i / 3)).
Proof.
  apply (IZR_le 0). apply Zfloor_lub.
  pose proof (pos_INR i). cbn. lra.
Qed.

Lemma updateRocks_rock_in_pile (this : ScaleView.view) (Qs D50 : R) (i : nat) :
  in_domain D50 ->
  rock_in_pile (ScaleView.updateRocks_rock this (Fin Qs) (Fin D50) i).
Proof.
  unfold in_domain. intros HD50.
  unfold ScaleView.updateRocks_rock. cbv zeta. js_fin.
  pose proof (layer_nonneg i) as Hk.
  set (k := IZR (Zfloor (INR i / 3))) in *.
  pose proof (prR_range (Qs * 1000 + D50 * 10 + INR i * 17)) as Hx.
  pose proof (prR_range (Qs * 1000 + D50 * 10 + INR i * 17 + 1)) as Hy.
  pose proof (prR_range (Qs * 1000 + D50 * 10 + INR i * 17 + 2)) as Hs.
  set (px := prR _) in Hx |- *. set (py := prR _) in Hy |- *.
  set (ps := prR _) in Hs |- *.
  eexists. eexists. eexists. split; [reflexivity | ].
  split; [ | split].
  - assert (Hm : 10 <= Rmax (50 - k * 12) 10 <= 50).
    { unfold Rmax. destruct (Rle_dec _ _); lra. }
    set (m := Rmax _ _) in *. nra.
  - assert (Hkb : 0 <= k * (3 + D50 / 100 * 7)) by nra.
    unfold Rmax. destruct (Rle_dec _ _); lra.
  - assert (Hb : 2 < (3 + D50 / 100 * 7) * (0.7 + ps * 0.5)) by nra.
    unfold Rmin. destruct (Rle_dec _ _); lra.
Qed.

Lemma updateRocks_rocks_fin (this : ScaleView.view) (Qs D50 : R) :
  ScaleView.updateRocks_rocks this (Fin Qs) (Fin D50) =
  Some (Lang.sort (fun a b => (ScaleView.y b - ScaleView.y a)%js)
          (map (ScaleView.updateRocks_rock this (Fin Qs) (Fin D50))
             (seq 0 (Z.to_nat (Zfloor (2 + Qs / 100 * 10)))))).
Proof.
  unfold ScaleView.updateRocks_rocks. cbv zeta.
  rewrite div_fin, mul_fin, add_fin, for_count_floor by lra. reflexivity.
Qed.

Lemma rocks_in_pile (this : ScaleView.view) (Qs D50 : R) (n : nat) :
  in_domain D50 ->
  Forall rock_in_pile
    (map (ScaleView.updateRocks_rock this (Fin Qs) (Fin D50)) (seq 0 n)).
Proof.
  intros HD50. apply Forall_forall. intros r Hr.
  apply in_map_iff in Hr. destruct Hr as (i & <- & _).
  apply updateRocks_rock_in_pile, HD50.
Qed.

(** X16. The pile of [updateRocks]: for sliders in [1,100] the array holds
    [floor(2 + Qs/10)] rocks, between 2 and 12, and every rock is finite,
    lies within 25 of the centre of the pan, at a height between 5 and 18,
    and has a positive size of at most 12. *)
Theorem updateRocks_pile (this : ScaleView.view) (Qs D50 : R) :
  in_domain Qs -> in_domain D50 ->
  exists rocks : list ScaleView.rock,
    ScaleView.updateRocks_rocks this (Fin Qs) (Fin D50) = Some rocks /\
    length rocks = Z.to_nat (Zfloor (2 + Qs / 100 * 10)) /\
    (2 <= length rocks <= 12)%nat /\
    Forall (fun r =>
              exists x y s : R,
                r = ScaleView.Build_rock (Fin x) (Fin y) (Fin s) /\
                -25 <= x <= 25 /\ 5 <= y <= 18 /\ 0 < s <= 12) rocks.
Proof.
  intros HQs HD50. rewrite updateRocks_rocks_fin. eexists.
  split; [reflexivity | ].
  assert (Hlen : length
            (Lang.sort (fun a b => (ScaleView.y b - ScaleView.y a)%js)
               (map (ScaleView.updateRocks_rock this (Fin Qs) (Fin D50))
                  (seq 0 (Z.to_nat (Zfloor (2 + Qs / 100 * 10))))))
          = Z.to_nat (Zfloor (2 + Qs / 100 * 10))).
  { rewrite (Permutation_length (sort_perm _ _)), length_map, length_seq.
    reflexivity. }
  split; [exact Hlen | split].
  - rewrite Hlen. unfold in_domain in HQs.
    pose proof (Zfloor_between (2 + Qs / 100 * 10) 2 12
                  ltac:(lra) ltac:(lra)). lia.
  - eapply Permutation_Forall; [symmetry; apply sort_perm | ].
    apply rocks_in_pile, HD50.
Qed.

Lemma updateRocks_pile_witness :
  (in_domain 50 /\ in_domain 50) /\
  exists rocks : list ScaleView.rock,
    ScaleView.updateRocks_rocks
      (ScaleView.Build_view (Fin 500) (Fin 280) (Fin 360)) (Fin 50) (Fin 50)
    = Some rocks /\
    length rocks = Z.to_nat (Zfloor (2 + 50 / 100 * 10)) /\
    (2 <= length rocks <= 12)%nat /\
    Forall (fun r =>
              exists x y s : R,
                r = ScaleView.Build_rock (Fin x) (Fin y) (Fin s) /\
                -25 <= x <= 25 /\ 5 <= y <= 18 /\ 0 < s <= 12) rocks.
Proof.
  assert (H : in_domain 50) by (unfold in_domain; lra).
  split; [exact (conj H H) | ].
  exact (updateRocks_pile _ 50 50 H H).
Defined.

Lemma StronglySorted_on {A : Type} (P : A -> Prop) (R1 R2 : A -> A -> Prop)
      (l : list A) :
  (forall a b, P a -> P b -> R1 a b -> R2 a b) ->
  Forall P l -> StronglySorted R1 l -> StronglySorted R2 l.
Proof.
  intros Himp HP Hs. induction Hs as [ | a l Hs IH Hall]; [constructor | ].
  inversion HP as [ | ? ? Ha Hl]; subst. constructor; [apply IH, Hl | ].
  rewrite Forall_forall in *. intros b Hb.
  apply Himp; [assumption | apply Hl, Hb | apply Hall, Hb].
Qed.

(** X17. The drawing order of the pile: the sort keeps the rocks that the loop
    built and arranges them by decreasing [y], so that every rock is drawn
    before the rocks above it. *)
Theorem updateRocks_drawing_order (this : ScaleView.view) (Qs D50 : R) :
  in_domain Qs -> in_domain D50 ->
  exists (n : nat) (rocks : list ScaleView.rock),
    ScaleView.updateRocks_rocks this (Fin Qs) (Fin D50) = Some rocks /\
    Permutation rocks
      (map (ScaleView.updateRocks_rock this (Fin Qs) (Fin D50)) (seq 0 n)) /\
    StronglySorted (fun a b => (ScaleView.y a >= ScaleView.y b)%js = true)
      rocks.
Proof.
  intros HQs HD50. rewrite updateRocks_rocks_fin. eexists. eexists.
  split; [reflexivity | ].
  split; [apply sort_perm | ].
  set (l := map _ (seq 0 _)).
  pose proof (rocks_in_pile this Qs D50
                (Z.to_nat (Zfloor (2 + Qs / 100 * 10))) HD50) as Hpile.
  fold l in Hpile.
  apply (StronglySorted_on rock_in_pile
           (fun u v => to_R (ScaleView.y v) <= to_R (ScaleView.y u))).
  - intros a b (xa & ya & sa & -> & _) (xb & yb & sb & -> & _). cbn.
    intros H. apply Rleb_true, H.
  - apply (Permutation_Forall (x := l)); [symmetry; apply sort_perm | exact Hpile].
  - apply sort_sorted. intros a b Ha Hb.
    rewrite Forall_forall in Hpile.
    destruct (Hpile a Ha) as (xa & ya & sa & -> & _).
    destruct (Hpile b Hb) as (xb & yb & sb & -> & _).
    reflexivity.
Qed.

Lemma updateRocks_drawing_order_witness :
  (in_domain 50 /\ in_domain 50) /\
  exists (n : nat) (rocks : list ScaleView.rock),
    ScaleView.updateRocks_rocks
      (ScaleView.Build_view (Fin 500) (Fin 280) (Fin 360)) (Fin 50) (Fin 50)
    = Some rocks /\
    Permutation rocks
      (map (ScaleView.updateRocks_rock
              (ScaleView.Build_view (Fin 500) (Fin 280) (Fin 360))
              (Fin 50) (Fin 50)) (seq 0 n)) /\
    StronglySorted (fun a b => (ScaleView.y a >= ScaleView.y b)%js = true)
      rocks.
Proof.
  assert (H : in_domain 50) by (unfold in_domain; lra).
  split; [exact (conj H H) | ].
  exact (updateRocks_drawing_order _ 50 50 H H).
Defined.

(** ** The meandering centreline *)








(** ** Point bars *)












(** ** Updating the plan view *)

Lemma abs_self (n : number) : (Lang.abs (n - n) > Fin 1)%js = false.
Proof.
  destruct n as [x | | | ]; try reflexivity.
  cbn. replace (x + - x) with 0 by lra. rewrite Rabs_R0.
  apply Rltb_false. lra.
Qed.

Lemma abs_self_or_else (n : number) :
  n <> Fin 0 -> (Lang.abs (n - Lang.or_else n (Fin 50)) > Fin 1)%js = false.
Proof.
  intros Hn. destruct n as [x | | | ]; try reflexivity.
  unfold Lang.or_else. rewrite Reqb_false by (intros ->; apply Hn; reflexivity).
  apply abs_self.
Qed.

(** X20. Without its channel group the view ignores an update.  With it, the
    pattern and the seed the view holds after an update are those of the
    parameters just given; a redraw records the parameters given and calls
    the drawing method of the new pattern, and an update that does not
    redraw leaves the recorded parameters as they were. *)
Theorem update_keeps_current
  (this : PlanViewDraw.view) (Qs D50 Qw S ratio : number) :
  let result := PlanViewDraw.update this Qs D50 Qw S ratio in
  let after := PlanViewDraw.data (fst result) in
  let before := PlanViewDraw.data this in
  (PlanViewDraw.channelGroup this = false -> result = (this, None)) /\
  (PlanViewDraw.channelGroup this = true ->
   PlanView.currentPattern after
   = Balance.getChannelPattern Qs D50 Qw S ratio /\
   PlanView.currentSeed after
   = PlanView.computeSeed before Qs D50 Qw S ratio /\
   (snd result = None ->
    PlanView.lastQs after = PlanView.lastQs before /\
    PlanView.lastQw after = PlanView.lastQw before /\
    PlanView.lastD50 after = PlanView.lastD50 before /\
    PlanView.lastS after = PlanView.lastS before) /\
   (forall drawn, snd result = Some drawn ->
    PlanView.lastQs after = Qs /\ PlanView.lastQw after = Qw /\
    PlanView.lastD50 after = D50 /\ PlanView.lastS after = S /\
    match drawn with
    | PlanViewDraw.DrawStraight q =>
        PlanView.currentPattern after = "straight" /\ q = Qw
    | PlanViewDraw.DrawBraided q qs d =>
        PlanView.currentPattern after = "braided" /\
        q = Qw /\ qs = Qs /\ d = D50
    | PlanViewDraw.DrawMeandering q _ qs d =>
        PlanView.currentPattern after = "meandering" /\
        q = Qw /\ qs = Qs /\ d = D50
    end)).
Proof.
  cbv zeta. unfold PlanViewDraw.update. split; intros Hcg; rewrite Hcg;
    cbn [negb]; [reflexivity | ].
  set (changed := orb _ _).
  assert (Hpat : changed = false ->
            PlanView.currentPattern (PlanViewDraw.data this)
            = Balance.getChannelPattern Qs D50 Qw S ratio).
  { unfold changed. intros H. apply orb_false_elim in H. destruct H as [H _].
    apply negb_false_iff, String.eqb_eq in H. symmetry. exact H. }
  destruct changed; cbn [fst snd PlanViewDraw.data PlanViewDraw.set_data
                          PlanView.currentPattern PlanView.currentSeed
                          PlanView.lastQs PlanView.lastQw PlanView.lastD50
                          PlanView.lastS].
  - split; [reflexivity | ]. split; [reflexivity | ].
    split; [discriminate | ].
    intros drawn Hd. injection Hd as <-.
    repeat (split; [reflexivity | ]).
    destruct (Balance.getChannelPattern Qs D50 Qw S ratio =? "straight")
      eqn:Es.
    + apply String.eqb_eq in Es. split; [exact Es | reflexivity].
    + destruct (Balance.getChannelPattern Qs D50 Qw S ratio =? "braided")
        eqn:Eb.
      * apply String.eqb_eq in Eb. repeat split; [exact Eb].
      * apply String.eqb_neq in Es, Eb.
        unfold Balance.getChannelPattern in *.
        destruct (_ > Fin 0.5)%js; [contradiction Eb; reflexivity | ].
        destruct (_ < Fin 0.15)%js; [contradiction Es; reflexivity | ].
        repeat split.
  - split; [apply Hpat; reflexivity | ]. split; [reflexivity | ].
    split; [intros _; repeat split | discriminate].
Qed.

(** A redraw: from the initial view, an update that moves [Qs] to 52 and
    [Qw] to 80 draws a meandering channel. *)
Lemma update_meander_sinuosity_example :
  snd (PlanViewDraw.update (initial_view true) (Fin 52) (Fin 50) (Fin 80)
         (Fin 50) (Fin 1))
  = Some (PlanViewDraw.DrawMeandering (Fin 80)
            (Math.max (Fin 1.05)
               (Fin 1.1 + Fin 80 / Fin 100 * Fin 0.5
                - Fin 52 / Fin 100 * Fin 0.2)%js)
            (Fin 52) (Fin 50)).
Proof.
  unfold PlanViewDraw.update.
  cbn [initial_view PlanViewDraw.channelGroup negb PlanViewDraw.data
       PlanView.currentPattern PlanView.lastQs PlanView.lastQw
       PlanView.lastD50 PlanView.lastS].
  rewrite getChannelPattern_any_ratio. cbn [aggradationFactorN].
  rewrite (Rltb_false 1 1) by lra.
  rewrite (Rltb_false 0.5) by lra. rewrite (Rltb_false (80 / 100)) by lra.
  cbn [String.eqb Ascii.eqb Bool.eqb negb orb].
  replace (Lang.abs (Fin 52 - Fin 50) > Fin 1)%js with true.
  - reflexivity.
  - symmetry. cbn. apply Rltb_true.
    replace (52 + - (50)) with 2 by lra. rewrite Rabs_pos_eq; lra.
Qed.

Lemma update_keeps_current_witness :
  ((PlanViewDraw.channelGroup (initial_view true) = true /\
    snd (PlanViewDraw.update (initial_view true) (Fin 52) (Fin 50) (Fin 80)
           (Fin 50) (Fin 1))
    = Some (PlanViewDraw.DrawMeandering (Fin 80)
              (Math.max (Fin 1.05)
                 (Fin 1.1 + Fin 80 / Fin 100 * Fin 0.5
                  - Fin 52 / Fin 100 * Fin 0.2)%js)
              (Fin 52) (Fin 50))) /\
   let after :=
     PlanViewDraw.data
       (fst (PlanViewDraw.update (initial_view true) (Fin 52) (Fin 50) (Fin 80)
               (Fin 50) (Fin 1))) in
   PlanView.currentPattern after
   = Balance.getChannelPattern (Fin 52) (Fin 50) (Fin 80) (Fin 50) (Fin 1) /\
   PlanView.currentSeed after
   = PlanView.computeSeed (PlanViewDraw.data (initial_view true))
       (Fin 52) (Fin 50) (Fin 80) (Fin 50) (Fin 1) /\
   PlanView.lastQs after = Fin 52 /\ PlanView.lastQw after = Fin 80 /\
   PlanView.lastD50 after = Fin 50 /\ PlanView.lastS after = Fin 50 /\
   PlanView.currentPattern after = "meandering") /\
  (PlanViewDraw.channelGroup (initial_view false) = false /\
   PlanViewDraw.update (initial_view false) (Fin 52) (Fin 50) (Fin 80) (Fin 50)
     (Fin 1) = (initial_view false, None)).
Proof.
  assert (H : PlanViewDraw.channelGroup (initial_view true) = true)
    by reflexivity.
  assert (H' : PlanViewDraw.channelGroup (initial_view false) = false)
    by reflexivity.
  split.
  - split; [exact (conj H update_meander_sinuosity_example) | ].
    destruct (update_keeps_current (initial_view true) (Fin 52) (Fin 50)
                (Fin 80) (Fin 50) (Fin 1)) as [_ Hon].
    destruct (Hon H) as (Hpat & Hseed & _ & Hdrawn).
    destruct (Hdrawn _ update_meander_sinuosity_example)
      as (HQs & HQw & HD50 & HS & Hm & _).
    exact (conj Hpat (conj Hseed (conj HQs (conj HQw (conj HD50 (conj HS Hm)))))).
  - split; [exact H' | ].
    destruct (update_keeps_current (initial_view false) (Fin 52) (Fin 50)
                (Fin 80) (Fin 50) (Fin 1)) as [Hoff _].
    exact (Hoff H').
Defined.

Lemma set_data_twice (this : PlanViewDraw.view) (d d' : PlanView.state) :
  PlanViewDraw.set_data (PlanViewDraw.set_data this d) d'
  = PlanViewDraw.set_data this d'.
Proof. reflexivity. Qed.

(** X21. Updating is idempotent: a second update with the same arguments does not
    redraw and leaves the view as the first one left it, provided [D50] and
    [S] are not 0 (a recorded 0 reads as the default 50). *)
Theorem update_idempotent
  (this : PlanViewDraw.view) (Qs D50 Qw S ratio : number) :
  D50 <> Fin 0 -> S <> Fin 0 ->
  let once := fst (PlanViewDraw.update this Qs D50 Qw S ratio) in
  PlanViewDraw.update once Qs D50 Qw S ratio = (once, None).
Proof.
  intros HD50 HS. cbv zeta.
  destruct (PlanViewDraw.channelGroup this) eqn:Hcg.
  2: { unfold PlanViewDraw.update. rewrite Hcg. cbn [negb fst]. rewrite Hcg.
       reflexivity. }
  remember (PlanViewDraw.update this Qs D50 Qw S ratio) as res eqn:Hres.
  unfold PlanViewDraw.update in Hres. rewrite Hcg in Hres. cbn [negb] in Hres.
  set (changed := orb _ _) in Hres.
  destruct changed eqn:Hch; subst res; cbn [fst]; unfold PlanViewDraw.update;
    cbn [PlanViewDraw.channelGroup PlanViewDraw.set_data PlanViewDraw.data
         PlanView.currentPattern PlanView.lastQs PlanView.lastQw
         PlanView.lastD50 PlanView.lastS];
    rewrite Hcg; cbn [negb].
  - rewrite String.eqb_refl, !abs_self, !abs_self_or_else by assumption.
    cbn [negb orb]. reflexivity.
  - fold changed. rewrite Hch. reflexivity.
Qed.

Lemma update_idempotent_witness :
  (Fin 50 <> Fin 0 /\ Fin 70 <> Fin 0) /\
  PlanViewDraw.update
    (fst (PlanViewDraw.update (initial_view true) (Fin 60) (Fin 50) (Fin 50)
            (Fin 70) (Fin 1.2)))
    (Fin 60) (Fin 50) (Fin 50) (Fin 70) (Fin 1.2)
  = (fst (PlanViewDraw.update (initial_view true) (Fin 60) (Fin 50) (Fin 50)
            (Fin 70) (Fin 1.2)), None).
Proof.
  assert (H1 : Fin 50 <> Fin 0) by (intros H; injection H; lra).
  assert (H2 : Fin 70 <> Fin 0) by (intros H; injection H; lra).
  split; [exact (conj H1 H2) | ].
  exact (update_idempotent (initial_view true) (Fin 60) (Fin 50) (Fin 50)
           (Fin 70) (Fin 1.2) H1 H2).
Defined.

Lemma abs_gap_small (a b : R) :
  (Lang.abs (Fin a - Fin b) > Fin 1)%js = false -> Rabs (a - b) <= 1.
Proof.
  cbn. unfold Rltb. destruct (Rlt_dec 1 (Rabs (a + - b))) as [H | H];
    [discriminate | ].
  intros _. replace (a - b) with (a + - b) by lra. lra.
Qed.

(** X22. What is drawn never lags the sliders by more than one unit: after an
    update with finite parameters, each recorded parameter is within 1 of
    the parameter given (the recorded [D50] and [S] being non-zero). *)
Theorem update_lag
  (this : PlanViewDraw.view) (Qs D50 Qw S lq lw ld ls : R) (ratio : number) :
  PlanViewDraw.channelGroup this = true ->
  PlanView.lastQs (PlanViewDraw.data this) = Fin lq ->
  PlanView.lastQw (PlanViewDraw.data this) = Fin lw ->
  PlanView.lastD50 (PlanViewDraw.data this) = Fin ld ->
  PlanView.lastS (PlanViewDraw.data this) = Fin ls ->
  ld <> 0 -> ls <> 0 ->
  let after :=
    PlanViewDraw.data
      (fst (PlanViewDraw.update this (Fin Qs) (Fin D50) (Fin Qw) (Fin S) ratio)) in
  exists lq' lw' ld' ls' : R,
    PlanView.lastQs after = Fin lq' /\ PlanView.lastQw after = Fin lw' /\
    PlanView.lastD50 after = Fin ld' /\ PlanView.lastS after = Fin ls' /\
    Rabs (Qs - lq') <= 1 /\ Rabs (Qw - lw') <= 1 /\
    Rabs (D50 - ld') <= 1 /\ Rabs (S - ls') <= 1.
Proof.
  intros Hcg Hlq Hlw Hld Hls Hld0 Hls0. cbv zeta.
  unfold PlanViewDraw.update. rewrite Hcg, Hlq, Hlw, Hld, Hls. cbn [negb].
  unfold Lang.or_else. rewrite !Reqb_false by assumption.
  set (changed := orb _ _).
  destruct changed eqn:Hch;
    cbn [fst PlanViewDraw.data PlanViewDraw.set_data PlanView.lastQs
         PlanView.lastQw PlanView.lastD50 PlanView.lastS].
  - exists Qs, Qw, D50, S. repeat (split; [reflexivity | ]).
    replace (Qs - Qs) with 0 by lra. replace (Qw - Qw) with 0 by lra.
    replace (D50 - D50) with 0 by lra. replace (S - S) with 0 by lra.
    rewrite Rabs_R0. repeat split; lra.
  - unfold changed in Hch.
    apply orb_false_elim in Hch. destruct Hch as [_ Hch].
    apply orb_false_elim in Hch. destruct Hch as [Hch HS].
    apply orb_false_elim in Hch. destruct Hch as [Hch HD50].
    apply orb_false_elim in Hch. destruct Hch as [HQs HQw].
    exists lq, lw, ld, ls. repeat (split; [reflexivity | ]).
    repeat split; apply abs_gap_small; assumption.
Qed.

Lemma update_lag_witness :
  (PlanViewDraw.channelGroup (initial_view true) = true /\ 50 <> 0) /\
  exists lq' lw' ld' ls' : R,
    PlanView.lastQs
      (PlanViewDraw.data
         (fst (PlanViewDraw.update (initial_view true) (Fin 51) (Fin 50)
                 (Fin 50) (Fin 50) (Fin 1)))) = Fin lq' /\
    PlanView.lastQw
      (PlanViewDraw.data
         (fst (PlanViewDraw.update (initial_view true) (Fin 51) (Fin 50)
                 (Fin 50) (Fin 50) (Fin 1)))) = Fin lw' /\
    PlanView.lastD50
      (PlanViewDraw.data
         (fst (PlanViewDraw.update (initial_view true) (Fin 51) (Fin 50)
                 (Fin 50) (Fin 50) (Fin 1)))) = Fin ld' /\
    PlanView.lastS
      (PlanViewDraw.data
         (fst (PlanViewDraw.update (initial_view true) (Fin 51) (Fin 50)
                 (Fin 50) (Fin 50) (Fin 1)))) = Fin ls' /\
    Rabs (51 - lq') <= 1 /\ Rabs (50 - lw') <= 1 /\
    Rabs (50 - ld') <= 1 /\ Rabs (50 - ls') <= 1.
Proof.
  assert (H1 : PlanViewDraw.channelGroup (initial_view true) = true)
    by reflexivity.
  assert (H2 : 50 <> 0) by lra.
  split; [exact (conj H1 H2) | ].
  exact (update_lag (initial_view true) 51 50 50 50 50 50 50 50 (Fin 1)
           H1 eq_refl eq_refl eq_refl eq_refl H2 H2).
Defined.

(** X23. The default that stands in for a recorded 0 breaks idempotence at the
    edge: once a redraw has recorded [D50 = 0], every further update with
    [D50 = 0] redraws again, whatever the other arguments. *)
Theorem update_zero_grain_redraws
  (this : PlanViewDraw.view) (Qs Qw S ratio : number) :
  PlanViewDraw.channelGroup this = true ->
  PlanView.lastD50 (PlanViewDraw.data this) = Fin 0 ->
  snd (PlanViewDraw.update this Qs (Fin 0) Qw S ratio) <> None.
Proof.
  intros Hcg Hld. unfold PlanViewDraw.update. rewrite Hcg, Hld. cbn [negb].
  assert (Hgap : (Lang.abs (Fin 0 - Lang.or_else (Fin 0) (Fin 50)) > Fin 1)%js
                 = true).
  { unfold Lang.or_else. rewrite Reqb_true by reflexivity. cbn.
    apply Rltb_true. replace (0 + - (50)) with (- (50)) by lra.
    rewrite Rabs_Ropp, Rabs_pos_eq; lra. }
  rewrite Hgap, !orb_true_r. cbn [orb snd]. discriminate.
Qed.

Lemma update_zero_grain_redraws_witness :
  (PlanViewDraw.channelGroup
     (PlanViewDraw.set_data (initial_view true)
        (PlanView.Build_state "meandering" (Fin 50) (Fin 50) (Fin 0) (Fin 50)
           (Fin 0))) = true /\
   PlanView.lastD50
     (PlanViewDraw.data
        (PlanViewDraw.set_data (initial_view true)
           (PlanView.Build_state "meandering" (Fin 50) (Fin 50) (Fin 0)
              (Fin 50) (Fin 0)))) = Fin 0) /\
  snd (PlanViewDraw.update
         (PlanViewDraw.set_data (initial_view true)
            (PlanView.Build_state "meandering" (Fin 50) (Fin 50) (Fin 0)
               (Fin 50) (Fin 0)))
         (Fin 50) (Fin 0) (Fin 50) (Fin 50) (Fin 1)) <> None.
Proof.
  split; [split; reflexivity | ].
  exact (update_zero_grain_redraws
           (PlanViewDraw.set_data (initial_view true)
              (PlanView.Build_state "meandering" (Fin 50) (Fin 50) (Fin 0)
                 (Fin 50) (Fin 0)))
           (Fin 50) (Fin 50) (Fin 50) (Fin 1) eq_refl eq_refl).
Defined.

(** ** Flow elements *)

Lemma modR_range (a L : R) : 0 < L -> 0 <= modR a L < L.
Proof.
  intros HL. unfold modR. pose proof (Zfloor_bound (a / L)) as [Hlo Hhi].
  assert (Ha : a = a / L * L) by (field; lra).
  split.
  - apply Rmult_le_compat_r with (r := L) in Hlo; lra.
  - apply Rmult_lt_compat_r with (r := L) in Hhi; lra.
Qed.

Lemma modR_small (a L : R) : 0 <= a < L -> modR a L = a.
Proof.
  intros [H0 HL]. unfold modR.
  rewrite (Zfloor_eq 0 (a / L)); [lra | ].
  split.
  - apply Rle_mult_inv_pos; lra.
  - rewrite Rplus_0_l. apply Rmult_lt_reg_r with L; [lra | ].
    unfold Rdiv. rewrite Rmult_assoc, Rinv_l; lra.
Qed.

Lemma modR_add (a s L : R) : 0 < L -> modR (modR a L + s) L = modR (a + s) L.
Proof.
  intros HL. unfold modR.
  set (k := Zfloor (a / L)).
  replace ((a - L * IZR k + s) / L) with ((a + s) / L + IZR (- k))
    by (rewrite opp_IZR; field; lra).
  rewrite Zfloor_addz, plus_IZR, opp_IZR. ring.
Qed.

Lemma rem_fin_nonneg (a L : R) :
  0 <= a -> 0 < L -> Lang.rem (Fin a) (Fin L) = Fin (modR a L).
Proof.
  intros Ha HL. unfold Lang.rem, Lang.Ztrunc, modR.
  rewrite Reqb_false by lra. rewrite Rleb_true; [reflexivity | ].
  apply Rle_mult_inv_pos; lra.
Qed.

(** One step keeps a flow element on its path and moves it by its speed. *)
Lemma step_on_path (node : PlanViewDraw.pathNode) (L : R)
      (d : PlanViewDraw.Flow.t) :
  0 < L -> on_path node L d ->
  on_path node L (PlanViewDraw.flow_step d) /\
  exists o s : R,
    PlanViewDraw.Flow.offset d = Fin o /\ PlanViewDraw.Flow.speed d = Fin s /\
    0 <= o /\ 0 <= s /\
    PlanViewDraw.Flow.offset (PlanViewDraw.flow_step d) = Fin (modR (o + s) L) /\
    PlanViewDraw.Flow.speed (PlanViewDraw.flow_step d) = Fin s /\
    PlanViewDraw.Flow.id (PlanViewDraw.flow_step d) = PlanViewDraw.Flow.id d /\
    PlanViewDraw.Flow.r (PlanViewDraw.flow_step d) = PlanViewDraw.Flow.r d.
Proof.
  intros HL (o & s & Ho & Hor & Hlen & Hs & Hs0 & Hnode & Hx & Hy).
  unfold PlanViewDraw.flow_step.
  rewrite Hnode, Ho, Hs, Hlen, add_fin, rem_fin_nonneg by lra.
  pose proof (modR_range (o + s) L HL) as Hr.
  cbn [PlanViewDraw.Flow.offset PlanViewDraw.Flow.pathLength
       PlanViewDraw.Flow.speed PlanViewDraw.Flow.pathNode
       PlanViewDraw.Flow.x PlanViewDraw.Flow.y
       PlanViewDraw.Flow.id PlanViewDraw.Flow.r].
  split.
  - exists (modR (o + s) L), s.
    cbn [PlanViewDraw.Flow.offset PlanViewDraw.Flow.pathLength
         PlanViewDraw.Flow.speed PlanViewDraw.Flow.pathNode
         PlanViewDraw.Flow.x PlanViewDraw.Flow.y].
    repeat split; try assumption; try reflexivity; lra.
  - exists o, s. repeat split; try reflexivity; lra.
Qed.

(** [n] steps of one element. *)
Lemma steps_on_path (node : PlanViewDraw.pathNode) (L : R) (n : nat)
      (d : PlanViewDraw.Flow.t) :
  0 < L -> on_path node L d ->
  on_path node L (Nat.iter n PlanViewDraw.flow_step d) /\
  advanced L n d (Nat.iter n PlanViewDraw.flow_step d).
Proof.
  intros HL Hd. induction n as [ | n [IHp IHa]].
  - cbn [Nat.iter nat_rect]. split; [exact Hd | ].
    destruct Hd as (o & s & Ho & Hor & Hlen & Hs & Hs0 & Hnode & Hx & Hy).
    exists o, s. repeat split; try assumption; try reflexivity.
    rewrite Ho. f_equal. cbn [INR]. rewrite Rmult_0_l, Rplus_0_r.
    symmetry. apply modR_small, Hor.
  - rewrite Nat.iter_succ.
    destruct (step_on_path node L _ HL IHp)
      as (Hp & o' & s' & Ho' & Hs' & Ho0 & Hs0 & Hoff & Hsp & Hid & Hr).
    split; [exact Hp | ].
    destruct IHa as (o & s & Ho & Hs & Hoffn & Hidn & Hrn & Hspn).
    exists o, s. split; [exact Ho | ]. split; [exact Hs | ].
    rewrite Hoff, Hsp, Hid, Hr, Hidn, Hrn.
    rewrite Hoffn in Ho'. injection Ho' as <-.
    rewrite Hspn, Hs in Hs'. injection Hs' as <-.
    repeat split; try reflexivity; try assumption; try (symmetry; assumption).
    rewrite modR_add by exact HL. f_equal. f_equal.
    rewrite S_INR. ring.
Qed.

Lemma iter_map {A : Type} (f : A -> A) (n : nat) (l : list A) :
  Nat.iter n (map f) l = map (Nat.iter n f) l.
Proof.
  induction n as [ | n IH].
  - cbn [Nat.iter nat_rect]. symmetry. apply map_id.
  - rewrite Nat.iter_succ, IH, map_map. apply map_ext. intros a.
    rewrite Nat.iter_succ. reflexivity.
Qed.

Lemma drawFlowElements_fin (node : PlanViewDraw.pathNode) (cw Qw L : R) :
  PlanViewDraw.getTotalLength node = Fin L ->
  IZR (Zfloor (10 + Qw / 5)) <> 0 ->
  PlanViewDraw.drawFlowElements node (Fin cw) (Fin Qw) =
  Some (map (fun i =>
               let o := L / IZR (Zfloor (10 + Qw / 5)) * INR i in
               {| PlanViewDraw.Flow.id := Fin (INR i);
                  PlanViewDraw.Flow.x :=
                    PlanViewDraw.x (PlanViewDraw.getPointAtLength node (Fin o));
                  PlanViewDraw.Flow.y :=
                    PlanViewDraw.y (PlanViewDraw.getPointAtLength node (Fin o));
                  PlanViewDraw.Flow.r := Fin (1.5 + Qw / 100 * 1.5);
                  PlanViewDraw.Flow.offset := Fin o;
                  PlanViewDraw.Flow.pathLength := Fin L;
                  PlanViewDraw.Flow.pathNode := Some node;
                  PlanViewDraw.Flow.speed := Fin (0.5 + Qw / 100 * 0.5) |})
            (seq 0 (Z.to_nat (Zfloor (10 + Qw / 5))))).
Proof.
  intros HL Hz. unfold PlanViewDraw.drawFlowElements. rewrite HL. cbv zeta.
  rewrite (div_fin Qw 5), add_fin, for_count_floor by lra.
  f_equal. apply map_ext. intros i. rewrite floor_fin. js_fin. reflexivity.
Qed.

(** X24. The flow elements of a straight or meandering channel stay on its path:
    for a discharge in [1,100] and a path of positive length,
    [drawFlowElements] places [floor(10 + Qw/5)] elements, between 10 and
    30, on the path, and however many animation steps follow, every element
    is still at a point of the path, at an offset inside its length. *)
Theorem flow_elements_stay_on_path
  (node : PlanViewDraw.pathNode) (cw Qw L : R) (n : nat) :
  in_domain Qw -> PlanViewDraw.getTotalLength node = Fin L -> 0 < L ->
  exists els : list PlanViewDraw.Flow.t,
    PlanViewDraw.drawFlowElements node (Fin cw) (Fin Qw) = Some els /\
    length els = Z.to_nat (Zfloor (10 + Qw / 5)) /\
    (10 <= length els <= 30)%nat /\
    length (Nat.iter n PlanViewDraw.updateFlowAnimation els) = length els /\
    Forall (on_path node L) (Nat.iter n PlanViewDraw.updateFlowAnimation els).
Proof.
  unfold in_domain. intros HQw HL HL0.
  pose proof (Zfloor_between (10 + Qw / 5) 10 30 ltac:(lra) ltac:(lra)) as Hz.
  assert (Hz0 : IZR (Zfloor (10 + Qw / 5)) <> 0).
  { apply not_0_IZR. lia. }
  rewrite (drawFlowElements_fin node cw Qw L HL Hz0). eexists.
  split; [reflexivity | ].
  unfold PlanViewDraw.updateFlowAnimation. rewrite iter_map.
  rewrite !length_map, length_seq.
  split; [reflexivity | ]. split; [lia | ]. split; [reflexivity | ].
  apply Forall_forall. intros d Hd.
  apply in_map_iff in Hd. destruct Hd as (d0 & <- & Hd0).
  apply steps_on_path; [exact HL0 | ].
  apply in_map_iff in Hd0. destruct Hd0 as (i & <- & Hi).
  apply in_seq in Hi.
  set (z := Zfloor (10 + Qw / 5)) in *.
  assert (Hi' : 0 <= INR i <= IZR z - 1).
  { split; [apply pos_INR | ].
    rewrite INR_IZR_INZ, <- minus_IZR. apply IZR_le. lia. }
  assert (Hzpos : 10 <= IZR z) by (apply (IZR_le 10); lia).
  eexists. eexists. cbv zeta.
  cbn [PlanViewDraw.Flow.offset PlanViewDraw.Flow.pathLength
       PlanViewDraw.Flow.speed PlanViewDraw.Flow.pathNode
       PlanViewDraw.Flow.x PlanViewDraw.Flow.y].
  split; [reflexivity | ].
  split.
  - assert (Hq : 0 < L / IZR z) by (apply Rdiv_lt_0_compat; lra).
    assert (HLz : L = L / IZR z * IZR z) by (field; lra).
    split; [nra | ]. nra.
  - repeat split; try reflexivity. lra.
Qed.

Lemma straight_path_example :
  PlanViewDraw.getTotalLength
    {| PlanViewDraw.getTotalLength := Fin 560;
       PlanViewDraw.getPointAtLength :=
         fun l => {| PlanViewDraw.x := l; PlanViewDraw.y := Fin 70 |} |}
  = Fin 560.
Proof. reflexivity. Qed.

Lemma flow_elements_stay_on_path_witness :
  (in_domain 50 /\ 0 < 560) /\
  exists els : list PlanViewDraw.Flow.t,
    PlanViewDraw.drawFlowElements
      {| PlanViewDraw.getTotalLength := Fin 560;
         PlanViewDraw.getPointAtLength :=
           fun l => {| PlanViewDraw.x := l; PlanViewDraw.y := Fin 70 |} |}
      (Fin 27.5) (Fin 50) = Some els /\
    length els = Z.to_nat (Zfloor (10 + 50 / 5)) /\
    (10 <= length els <= 30)%nat /\
    length (Nat.iter 3 PlanViewDraw.updateFlowAnimation els) = length els /\
    Forall
      (on_path
         {| PlanViewDraw.getTotalLength := Fin 560;
            PlanViewDraw.getPointAtLength :=
              fun l => {| PlanViewDraw.x := l; PlanViewDraw.y := Fin 70 |} |}
         560)
      (Nat.iter 3 PlanViewDraw.updateFlowAnimation els).
Proof.
  assert (H1 : in_domain 50) by (unfold in_domain; lra).
  assert (H2 : 0 < 560) by lra.
  split; [exact (conj H1 H2) | ].
  exact (flow_elements_stay_on_path _ 27.5 50 560 3 H1 straight_path_example H2).
Defined.




(** ** Braided threads *)

Lemma drawBraided_channel_in_braidplain
      (this : PlanViewDraw.view) (H Qw seed : R) (c : nat) :
  PlanViewDraw.height this = Fin H ->
  PlanView.currentSeed (PlanViewDraw.data this) = Fin seed ->
  (exists W, PlanViewDraw.width this = Fin W) ->
  0 <= Qw ->
  thread_in_braidplain H Qw (PlanViewDraw.drawBraided_channel this (Fin Qw) c).
Proof.
  intros HH Hseed [W HW] HQw.
  unfold thread_in_braidplain, PlanViewDraw.drawBraided_channel.
  rewrite HH, Hseed, HW. cbv zeta. unfold Lang.PI.
  cbn [PlanViewDraw.Channel.points PlanViewDraw.Channel.width].
  js_fin.
  pose proof (prR_range (seed + 2000 + INR c * 97)) as Hp.
  set (p := prR (seed + 2000 + INR c * 97)) in *.
  exists (3 + Qw / 100 * 5 + p * 4).
  split; [reflexivity | ]. split; [lra | ].
  split; [rewrite length_map, length_seq; reflexivity | ].
  apply Forall_forall. intros q Hq. apply in_map_iff in Hq.
  destruct Hq as (i & <- & _). js_fin.
  eexists. eexists. split; [reflexivity | ].
  unfold Rmax, Rmin.
  destruct (Rle_dec (H / 2 + (60 + Qw / 100 * 50) / 2 - (3 + Qw / 100 * 5 + p * 4)) _);
    destruct (Rle_dec _ _); lra.
Qed.

(** X26. The threads of a braided channel stay in the braidplain: for a
    discharge in [1,100] on a finite canvas, [drawBraided] builds
    [3 + floor(Qw/25)] threads, between 3 and 7; each is between
    [3 + Qw/20] and [7 + Qw/20] wide and has 41 finite points, every one at
    least the width of the thread inside the braidplain of half-width
    [30 + Qw/4] around the middle line. *)
Theorem braided_threads_in_braidplain
  (this : PlanViewDraw.view) (W H Qw seed : R) :
  PlanViewDraw.width this = Fin W -> PlanViewDraw.height this = Fin H ->
  PlanView.currentSeed (PlanViewDraw.data this) = Fin seed ->
  in_domain Qw ->
  exists threads : list PlanViewDraw.Channel.t,
    PlanViewDraw.drawBraided_channels this (Fin Qw) = Some threads /\
    length threads = Z.to_nat (3 + Zfloor (Qw / 25)) /\
    (3 <= length threads <= 7)%nat /\
    Forall (thread_in_braidplain H Qw) threads.
Proof.
  unfold in_domain. intros HW HH Hseed HQw.
  unfold PlanViewDraw.drawBraided_channels. cbv zeta.
  rewrite div_fin, floor_fin, add_fin by lra.
  replace (3 + IZR (Zfloor (Qw / 25))) with (IZR (3 + Zfloor (Qw / 25)))
    by (rewrite plus_IZR; reflexivity).
  cbn [Lang.for_count]. rewrite Zceil_IZR. eexists.
  split; [reflexivity | ].
  rewrite length_map, length_seq. split; [reflexivity | ].
  pose proof (Zfloor_between (Qw / 25) 0 4 ltac:(lra) ltac:(lra)) as Hz.
  split; [lia | ].
  apply Forall_forall. intros ch Hch. apply in_map_iff in Hch.
  destruct Hch as (c & <- & _).
  apply (drawBraided_channel_in_braidplain this H Qw seed c HH Hseed);
    [exists W; exact HW | lra].
Qed.

Lemma braided_threads_in_braidplain_witness :
  in_domain 50 /\
  exists threads : list PlanViewDraw.Channel.t,
    PlanViewDraw.drawBraided_channels (initial_view true) (Fin 50)
    = Some threads /\
    length threads = Z.to_nat (3 + Zfloor (50 / 25)) /\
    (3 <= length threads <= 7)%nat /\
    Forall (thread_in_braidplain 140 50) threads.
Proof.
  assert (H : in_domain 50) by (unfold in_domain; lra).
  split; [exact H | ].
  exact (braided_threads_in_braidplain (initial_view true) 560 140 50 0
           eq_refl eq_refl eq_refl H).
Defined.

(** ** Mid-channel bars *)

(** X27. The number of mid-channel bars on a meandering channel, for sliders in
    [1,100]: [floor(0.06 (Qs + D50) - 4.2)] when that is positive and none
    otherwise; so there are never more than 7, and there are none exactly
    when [Qs + D50] is below 260/3. *)
Theorem addMidChannelBars_count_bounds (Qs D50 : R) :
  in_domain Qs -> in_domain D50 ->
  exists n : nat,
    PlanViewDraw.addMidChannelBars_count (Fin Qs) (Fin D50) = Some n /\
    n = Z.to_nat (Zfloor ((Qs + D50) * 0.06 - 4.2)) /\
    (n <= 7)%nat /\
    (n = 0%nat <-> 3 * (Qs + D50) < 260).
Proof.
  unfold in_domain. intros HQs HD50.
  unfold PlanViewDraw.addMidChannelBars_count. cbv zeta. js_fin.
  replace (((Qs / 100 + D50 / 100) / 2 - 0.35) * 12)
    with ((Qs + D50) * 0.06 - 4.2) by lra.
  set (v := (Qs + D50) * 0.06 - 4.2).
  assert (Hv : v <= 7.8) by (unfold v; lra).
  pose proof (Zfloor_bound v) as [Hf1 Hf2].
  assert (Hz7 : (Zfloor v <= 7)%Z).
  { assert (IZR (Zfloor v) < IZR 8) by lra. apply lt_IZR in H. lia. }
  assert (Hzero : (Zfloor v <= 0)%Z <-> 3 * (Qs + D50) < 260).
  { split; intros Hz.
    - apply IZR_le in Hz. unfold v in *. lra.
    - assert (IZR (Zfloor v) < IZR 1) by (unfold v in *; lra).
      apply lt_IZR in H. lia. }
  exists (Z.to_nat (Zfloor v)).
  split; [ | split; [reflexivity | split; [lia | ]]].
  - unfold JS.lt, JS.le, Rltb, Rleb.
    destruct (Rlt_dec ((Qs / 100 + D50 / 100) / 2) 0.35) as [Hlow | Hlow].
    + f_equal. assert (IZR (Zfloor v) < IZR 0) by (unfold v in *; lra).
      apply lt_IZR in H. lia.
    + destruct (Rle_dec (IZR (Zfloor v)) 0) as [Hle | Hgt].
      * f_equal. apply (le_IZR _ 0) in Hle. lia.
      * cbn [Lang.for_count]. rewrite Zceil_IZR. reflexivity.
  - rewrite <- Hzero. split; intros Hn; lia.
Qed.

Lemma addMidChannelBars_count_bounds_witness :
  (in_domain 90 /\ in_domain 80) /\
  exists n : nat,
    PlanViewDraw.addMidChannelBars_count (Fin 90) (Fin 80) = Some n /\
    n = Z.to_nat (Zfloor ((90 + 80) * 0.06 - 4.2)) /\
    (n <= 7)%nat /\
    (n = 0%nat <-> 3 * (90 + 80) < 260).
Proof.
  assert (H1 : in_domain 90) by (unfold in_domain; lra).
  assert (H2 : in_domain 80) by (unfold in_domain; lra).
  split; [exact (conj H1 H2) | ].
  exact (addMidChannelBars_count_bounds 90 80 H1 H2).
Defined.

(** ** Sinuosity *)

(** X28. When an update with sliders in [1,100] redraws a meandering channel,
    the sinuosity it draws with is [max(1.05, 1.1 + Qw/200 - Qs/500)],
    between 1.05 and 1.598, and it reaches the 1.2 from which point bars
    are drawn exactly when [5 Qw - 2 Qs >= 100]. *)
Theorem update_meander_sinuosity
  (this : PlanViewDraw.view) (Qs Qw : R) (D50 S ratio q s qs d : number) :
  in_domain Qs -> in_domain Qw ->
  snd (PlanViewDraw.update this (Fin Qs) D50 (Fin Qw) S ratio)
  = Some (PlanViewDraw.DrawMeandering q s qs d) ->
  exists v : R,
    s = Fin v /\ v = Rmax 1.05 (1.1 + Qw / 200 - Qs / 500) /\
    1.05 <= v <= 1.598 /\ (1.2 <= v <-> 100 <= 5 * Qw - 2 * Qs).
Proof.
  unfold in_domain. intros HQs HQw. unfold PlanViewDraw.update.
  destruct (negb (PlanViewDraw.channelGroup this)); [discriminate | ].
  destruct (orb _ _); [ | discriminate]. cbn [snd].
  destruct (_ =? "straight"); [discriminate | ].
  destruct (_ =? "braided"); [discriminate | ].
  assert (Hs : Math.max (Fin 1.05)
                 (Fin 1.1 + Fin Qw / Fin 100 * Fin 0.5
                  - Fin Qs / Fin 100 * Fin 0.2)%js
               = Fin (Rmax 1.05 (1.1 + Qw / 100 * 0.5 - Qs / 100 * 0.2)))
    by (js_fin; reflexivity).
  rewrite Hs. intros Hd. injection Hd as _ <- _ _.
  exists (Rmax 1.05 (1.1 + Qw / 100 * 0.5 - Qs / 100 * 0.2)).
  split; [reflexivity | ].
  replace (1.1 + Qw / 100 * 0.5 - Qs / 100 * 0.2)
    with (1.1 + Qw / 200 - Qs / 500) by lra.
  split; [reflexivity | ].
  unfold Rmax. destruct (Rle_dec _ _); split; try split; intros; lra.
Qed.

Lemma update_meander_sinuosity_witness :
  (in_domain 52 /\ in_domain 80) /\
  exists v : R,
    Math.max (Fin 1.05)
      (Fin 1.1 + Fin 80 / Fin 100 * Fin 0.5 - Fin 52 / Fin 100 * Fin 0.2)%js
    = Fin v /\
    v = Rmax 1.05 (1.1 + 80 / 200 - 52 / 500) /\
    1.05 <= v <= 1.598 /\ (1.2 <= v <-> 100 <= 5 * 80 - 2 * 52).
Proof.
  assert (H1 : in_domain 52) by (unfold in_domain; lra).
  assert (H2 : in_domain 80) by (unfold in_domain; lra).
  split; [exact (conj H1 H2) | ].
  exact (update_meander_sinuosity (initial_view true) 52 80 (Fin 50) (Fin 50)
           (Fin 1) _ _ _ _ H1 H2 update_meander_sinuosity_example).
Defined.
